(** * The rules engine of the Tetris hook [useTetris]

    A shallow embedding of [types/tetris.ts] (the piece catalog and the
    board constants) and of [hooks/useTetris.ts] (the board primitives and
    the commands of the hook), followed by the properties of the engine.

    Numbers are modelled by [Z]; arrays by lists.  What JavaScript does
    outside the range of an array is written out where it happens:
    reading yields [undefined], calling a method of [undefined] throws,
    and writing past the end grows the array. *)

From Stdlib Require Import String ZArith List Bool Lia Sorted.
Import ListNotations.
Open Scope Z_scope.

(** ** Outcomes of a call *)

(** How a call can fail to hand back a value of its TypeScript type.
    [TypeError] and [RangeError] are the exceptions the engine raises;
    [UndefinedCell] marks the points where the source carries on with an
    array that holds [undefined] or a hole, which a list of numbers
    cannot hold; [OutOfFuel] marks a loop cut off by its bound. *)
Inductive Failure : Type :=
| TypeError
| RangeError
| UndefinedCell
| OutOfFuel.

Inductive Outcome (A : Type) : Type :=
| Ok (a : A)
| Stop (e : Failure).

Arguments Ok {A} a.
Arguments Stop {A} e.

Definition obind {A B : Type} (o : Outcome A) (k : A -> Outcome B) : Outcome B :=
  match o with
  | Ok a => k a
  | Stop e => Stop e
  end.

Fixpoint omap {A B : Type} (f : A -> Outcome B) (l : list A) : Outcome (list B) :=
  match l with
  | [] => Ok []
  | x :: rest =>
      obind (f x) (fun y => obind (omap f rest) (fun ys => Ok (y :: ys)))
  end.

(** ** types/tetris.ts *)

Inductive TetrominoType : Type :=
| TypeI | TypeO | TypeT | TypeS | TypeZ | TypeJ | TypeL.

Record Tetromino : Type := mkTetromino {
  shape : list (list Z);
  type : TetrominoType;
  color : string
}.

Record Position : Type := mkPosition {
  row : Z;
  col : Z
}.

Definition Board : Type := list (list Z).

Record GameState : Type := mkGameState {
  board : Board;
  currentPiece : Tetromino;
  currentPosition : Position;
  nextPiece : Tetromino;
  score : Z;
  isGameOver : bool;
  isPaused : bool
}.

Definition BOARD_WIDTH : Z := 10.
Definition BOARD_HEIGHT : Z := 20.

Definition TETROMINOES (key : TetrominoType) : Tetromino :=
  match key with
  | TypeI => mkTetromino [[0;0;0;0]; [1;1;1;1]; [0;0;0;0]; [0;0;0;0]] TypeI "#00f0f0"
  | TypeO => mkTetromino [[1;1]; [1;1]] TypeO "#f0f000"
  | TypeT => mkTetromino [[0;1;0]; [1;1;1]; [0;0;0]] TypeT "#a000f0"
  | TypeS => mkTetromino [[0;1;1]; [1;1;0]; [0;0;0]] TypeS "#00f000"
  | TypeZ => mkTetromino [[1;1;0]; [0;1;1]; [0;0;0]] TypeZ "#f00000"
  | TypeJ => mkTetromino [[1;0;0]; [1;1;1]; [0;0;0]] TypeJ "#0000f0"
  | TypeL => mkTetromino [[0;0;1]; [1;1;1]; [0;0;0]] TypeL "#f0a000"
  end.

(** The keys of [TETROMINOES], in the order [Object.keys] lists them. *)
Definition tetrominoTypes : list TetrominoType :=
  [TypeI; TypeO; TypeT; TypeS; TypeZ; TypeJ; TypeL].

(** ** hooks/useTetris.ts: the board primitives *)

Definition createEmptyBoard : Board :=
  repeat (repeat 0 (Z.to_nat BOARD_WIDTH)) (Z.to_nat BOARD_HEIGHT).

(** [Math.random] is the one input of the engine that is not in its
    state: the key it selects, [randomType], is handed in by the caller. *)
Definition getRandomTetromino (randomType : TetrominoType) : Tetromino :=
  TETROMINOES randomType.

(** A number is truthy when it is not zero. *)
Definition truthy (cell : Z) : bool := negb (cell =? 0).

(** The body of the inner loop of [isValidMove] for the shape cell
    [cell] at shape coordinates [(r, c)]: [Ok false] is the early
    [return false], [Ok true] lets the loops go on.  [board[newRow]] is
    only read once [newRow] lies in [0, BOARD_HEIGHT): a board with fewer
    rows makes it [undefined] and the column access throws; a row that
    is too short makes the cell [undefined], which is falsy. *)
Definition cellAdmits (board : Board) (position : Position) (r c cell : Z)
  : Outcome bool :=
  if truthy cell then
    let newRow := row position + r in
    let newCol := col position + c in
    if (newRow <? 0) || (newRow >=? BOARD_HEIGHT)
       || (newCol <? 0) || (newCol >=? BOARD_WIDTH)
    then Ok false
    else
      match nth_error board (Z.to_nat newRow) with
      | None => Stop TypeError
      | Some boardRow =>
          match nth_error boardRow (Z.to_nat newCol) with
          | None => Ok true
          | Some filled => Ok (negb (truthy filled))
          end
      end
  else Ok true.

Fixpoint validCols (board : Board) (position : Position) (r c : Z)
  (cells : list Z) : Outcome bool :=
  match cells with
  | [] => Ok true
  | cell :: rest =>
      match cellAdmits board position r c cell with
      | Ok true => validCols board position r (c + 1) rest
      | stop => stop
      end
  end.

Fixpoint validRows (board : Board) (position : Position) (r : Z)
  (rows : list (list Z)) : Outcome bool :=
  match rows with
  | [] => Ok true
  | cells :: rest =>
      match validCols board position r 0 cells with
      | Ok true => validRows board position (r + 1) rest
      | stop => stop
      end
  end.

Definition isValidMove (board : Board) (piece : Tetromino)
  (position : Position) : Outcome bool :=
  validRows board position 0 (shape piece).

(** [piece.shape.map(row => row[index])]: a row shorter than the first
    one yields [undefined] there. *)
Definition column (index : nat) (rows : list (list Z)) : Outcome (list Z) :=
  omap (fun cells =>
          match nth_error cells index with
          | Some cell => Ok cell
          | None => Stop UndefinedCell
          end) rows.

(** [piece.shape[0]] of an empty shape is [undefined] and [.map] on it
    throws. *)
Definition rotatePiece (piece : Tetromino) : Outcome Tetromino :=
  match shape piece with
  | [] => Stop TypeError
  | first :: _ =>
      obind
        (omap (fun index => obind (column index (shape piece))
                              (fun cells => Ok (rev cells)))
              (seq 0 (length first)))
        (fun newShape => Ok (mkTetromino newShape (type piece) (color piece)))
  end.

(** [l[n] = x] for [n] inside the list. *)
Fixpoint update {A : Type} (n : nat) (x : A) (l : list A) : list A :=
  match l, n with
  | [], _ => []
  | _ :: rest, O => x :: rest
  | y :: rest, S m => y :: update m x rest
  end.

(** [newBoard[newRow][newCol] = 1], reached only for [newRow] and
    [newCol] inside the constant bounds.  A missing row throws; a row
    [newCol] cells long grows by one; a shorter one would be left with
    holes. *)
Definition fillCell (newBoard : Board) (newRow newCol : Z) : Outcome Board :=
  match nth_error newBoard (Z.to_nat newRow) with
  | None => Stop TypeError
  | Some boardRow =>
      let n := Z.to_nat newCol in
      if (n <? length boardRow)%nat
      then Ok (update (Z.to_nat newRow) (update n 1 boardRow) newBoard)
      else if (n =? length boardRow)%nat
      then Ok (update (Z.to_nat newRow) (boardRow ++ [1]) newBoard)
      else Stop UndefinedCell
  end.

Definition mergeCell (position : Position) (rowIndex colIndex cell : Z)
  (newBoard : Board) : Outcome Board :=
  if truthy cell then
    let newRow := row position + rowIndex in
    let newCol := col position + colIndex in
    if (newRow >=? 0) && (newRow <? BOARD_HEIGHT)
       && (newCol >=? 0) && (newCol <? BOARD_WIDTH)
    then fillCell newBoard newRow newCol
    else Ok newBoard
  else Ok newBoard.

Fixpoint mergeCols (position : Position) (rowIndex colIndex : Z)
  (cells : list Z) (newBoard : Board) : Outcome Board :=
  match cells with
  | [] => Ok newBoard
  | cell :: rest =>
      obind (mergeCell position rowIndex colIndex cell newBoard)
            (mergeCols position rowIndex (colIndex + 1) rest)
  end.

Fixpoint mergeRows (position : Position) (rowIndex : Z)
  (rows : list (list Z)) (newBoard : Board) : Outcome Board :=
  match rows with
  | [] => Ok newBoard
  | cells :: rest =>
      obind (mergeCols position rowIndex 0 cells newBoard)
            (mergeRows position (rowIndex + 1) rest)
  end.

Definition mergePieceWithBoard (board : Board) (piece : Tetromino)
  (position : Position) : Outcome Board :=
  mergeRows position 0 (shape piece) board.

Record Cleared : Type := mkCleared {
  clearedRows : list Z;
  newBoard : Board;
  linesCleared : Z
}.

(** [row.every(cell => cell === 1)] *)
Definition isFull (cells : list Z) : bool :=
  forallb (fun cell => cell =? 1) cells.

(** The [forEach] of [clearLines], started at index [index]. *)
Fixpoint fullRowsFrom (index : Z) (rows : Board) : list Z :=
  match rows with
  | [] => []
  | cells :: rest =>
      if isFull cells
      then index :: fullRowsFrom (index + 1) rest
      else fullRowsFrom (index + 1) rest
  end.

(** [Array(linesCleared)] throws on a negative length. *)
Definition clearLines (board : Board) : Outcome Cleared :=
  let clearedRows := fullRowsFrom 0 board in
  let newBoard := filter (fun cells => negb (isFull cells)) board in
  let linesCleared := BOARD_HEIGHT - Z.of_nat (length newBoard) in
  if linesCleared <? 0 then Stop RangeError
  else
    let emptyLines :=
      repeat (repeat 0 (Z.to_nat BOARD_WIDTH)) (Z.to_nat linesCleared) in
    Ok (mkCleared clearedRows (emptyLines ++ newBoard) linesCleared).

(** ** hooks/useTetris.ts: the hook *)

(** What the callback handed to [setTimeout] closes over: the
    [gameState] its [moveDown] was created with and the result of
    [clearLines]. *)
Record Timeout : Type := mkTimeout {
  delay : Z;
  capturedState : GameState;
  capturedBoard : Board;
  capturedLines : Z
}.

(** The mutable part of a session: the state cell of [useState], with
    the updaters queued so far already applied in their order, and the
    timeouts that were scheduled and have not fired, oldest first.  No
    call of [clearTimeout] exists in the hook. *)
Record World : Type := mkWorld {
  state : GameState;
  timeouts : list Timeout
}.

(** A piece of a handler: it changes the world and either returns or
    stops with a failure; what it did before a failure stays done. *)
Definition Cmd (A : Type) : Type := World -> World * Outcome A.

Definition ret {A : Type} (a : A) : Cmd A := fun w => (w, Ok a).

Definition bind {A B : Type} (m : Cmd A) (k : A -> Cmd B) : Cmd B :=
  fun w =>
    match m w with
    | (w', Ok a) => k a w'
    | (w', Stop e) => (w', Stop e)
    end.

Definition lift {A : Type} (o : Outcome A) : Cmd A := fun w => (w, o).

Declare Scope cmd_scope.
Delimit Scope cmd_scope with cmd.
Notation "x <- m ;; k" := (bind m (fun x => k))
  (at level 61, m at next level, right associativity) : cmd_scope.
Notation "m ;; k" := (bind m (fun _ => k))
  (at level 61, right associativity) : cmd_scope.
Open Scope cmd_scope.

(** [setGameState(prev => ...)] *)
Definition setGameState (updater : GameState -> GameState) : Cmd unit :=
  fun w => (mkWorld (updater (state w)) (timeouts w), Ok tt).

Definition setTimeout (t : Timeout) : Cmd unit :=
  fun w => (mkWorld (state w) (timeouts w ++ [t]), Ok tt).

(** The object spreads [{ ...prev, field: value }]. *)
Definition withPosition (newPosition : Position) (prev : GameState) : GameState :=
  mkGameState (board prev) (currentPiece prev) newPosition (nextPiece prev)
    (score prev) (isGameOver prev) (isPaused prev).

Definition withPiece (piece : Tetromino) (prev : GameState) : GameState :=
  mkGameState (board prev) piece (currentPosition prev) (nextPiece prev)
    (score prev) (isGameOver prev) (isPaused prev).

Definition withBoard (newBoard : Board) (prev : GameState) : GameState :=
  mkGameState newBoard (currentPiece prev) (currentPosition prev)
    (nextPiece prev) (score prev) (isGameOver prev) (isPaused prev).

Definition withPaused (paused : bool) (prev : GameState) : GameState :=
  mkGameState (board prev) (currentPiece prev) (currentPosition prev)
    (nextPiece prev) (score prev) (isGameOver prev) paused.

(** The spread that ends a settle: every field but [isPaused] is set. *)
Definition withSettled (clearedBoard : Board) (piece : Tetromino)
  (nextPosition : Position) (next : Tetromino) (newScore : Z) (over : bool)
  (prev : GameState) : GameState :=
  mkGameState clearedBoard piece nextPosition next newScore over (isPaused prev).

(** [{ row: 0, col: Math.floor(BOARD_WIDTH / 2) - 1 }] *)
Definition spawnPosition : Position := mkPosition 0 (BOARD_WIDTH / 2 - 1).

Definition initialState (first second : TetrominoType) : GameState :=
  mkGameState createEmptyBoard (getRandomTetromino first) spawnPosition
    (getRandomTetromino second) 0 false false.

(** The callback of [setTimeout] in [moveDown].  [getRandomTetromino]
    is called when the updater runs, which is when the timeout fires. *)
Definition phaseTwo (t : Timeout) (randomType : TetrominoType) : Cmd unit :=
  let gameState := capturedState t in
  let newScore := score gameState + capturedLines t * 100 in
  let next := nextPiece gameState in
  let nextPosition := spawnPosition in
  valid <- lift (isValidMove (capturedBoard t) next nextPosition) ;;
  setGameState (withSettled (capturedBoard t) next nextPosition
                  (getRandomTetromino randomType) newScore (negb valid)).

(** Each command closes over [gameState], the state of the render that
    created it, and writes through [setGameState]. *)
Definition moveDown (gameState : GameState) (randomType : TetrominoType)
  : Cmd unit :=
  if isGameOver gameState || isPaused gameState then ret tt
  else
    let newPosition :=
      mkPosition (row (currentPosition gameState) + 1)
                 (col (currentPosition gameState)) in
    valid <- lift (isValidMove (board gameState) (currentPiece gameState)
                     newPosition) ;;
    if (valid : bool) then setGameState (withPosition newPosition)
    else
      merged <- lift (mergePieceWithBoard (board gameState)
                        (currentPiece gameState) (currentPosition gameState)) ;;
      cleared <- lift (clearLines merged) ;;
      if (0 <? length (clearedRows cleared))%nat then
        setGameState (withBoard merged) ;;
        setTimeout (mkTimeout 800 gameState (newBoard cleared)
                      (linesCleared cleared))
      else
        let newScore := score gameState + linesCleared cleared * 100 in
        let next := nextPiece gameState in
        let nextPosition := spawnPosition in
        spawnValid <- lift (isValidMove (newBoard cleared) next nextPosition) ;;
        setGameState (withSettled (newBoard cleared) next nextPosition
                        (getRandomTetromino randomType) newScore
                        (negb spawnValid)).

Definition moveLeft (gameState : GameState) : Cmd unit :=
  if isGameOver gameState || isPaused gameState then ret tt
  else
    let newPosition :=
      mkPosition (row (currentPosition gameState))
                 (col (currentPosition gameState) - 1) in
    valid <- lift (isValidMove (board gameState) (currentPiece gameState)
                     newPosition) ;;
    if (valid : bool) then setGameState (withPosition newPosition) else ret tt.

Definition moveRight (gameState : GameState) : Cmd unit :=
  if isGameOver gameState || isPaused gameState then ret tt
  else
    let newPosition :=
      mkPosition (row (currentPosition gameState))
                 (col (currentPosition gameState) + 1) in
    valid <- lift (isValidMove (board gameState) (currentPiece gameState)
                     newPosition) ;;
    if (valid : bool) then setGameState (withPosition newPosition) else ret tt.

Definition rotate (gameState : GameState) : Cmd unit :=
  if isGameOver gameState || isPaused gameState then ret tt
  else
    rotatedPiece <- lift (rotatePiece (currentPiece gameState)) ;;
    valid <- lift (isValidMove (board gameState) rotatedPiece
                     (currentPosition gameState)) ;;
    if (valid : bool) then setGameState (withPiece rotatedPiece) else ret tt.

(** The [while] loop of [hardDrop], cut off after [fuel] tests. *)
Fixpoint dropLoop (fuel : nat) (board : Board) (piece : Tetromino)
  (newPosition : Position) : Outcome Position :=
  match fuel with
  | O => Stop OutOfFuel
  | S fuel' =>
      let below := mkPosition (row newPosition + 1) (col newPosition) in
      match isValidMove board piece below with
      | Ok true => dropLoop fuel' board piece below
      | Ok false => Ok newPosition
      | Stop e => Stop e
      end
  end.

(** [moveDown] here is the callback of the same render: it closes over
    the same [gameState] as [hardDrop] does. *)
Definition hardDrop (fuel : nat) (gameState : GameState)
  (randomType : TetrominoType) : Cmd unit :=
  if isGameOver gameState || isPaused gameState then ret tt
  else
    newPosition <- lift (dropLoop fuel (board gameState)
                           (currentPiece gameState)
                           (currentPosition gameState)) ;;
    setGameState (withPosition newPosition) ;;
    moveDown gameState randomType.

Definition resetGame (first second : TetrominoType) : Cmd unit :=
  setGameState (fun _ => initialState first second).

(** The listener for [keydown]. *)
Definition handleKeyPress (fuel : nat) (gameState : GameState) (key : string)
  (randomType : TetrominoType) : Cmd unit :=
  if String.eqb key "Enter" then
    setGameState (fun prev => withPaused (negb (isPaused prev)) prev)
  else if isPaused gameState then ret tt
  else if String.eqb key "ArrowLeft" then moveLeft gameState
  else if String.eqb key "ArrowRight" then moveRight gameState
  else if String.eqb key "ArrowDown" then moveDown gameState randomType
  else if String.eqb key "ArrowUp" then rotate gameState
  else if String.eqb key " " then hardDrop fuel gameState randomType
  else ret tt.

(** The callback of [setInterval] in [App]. *)
Definition gameLoop (gameState : GameState) (randomType : TetrominoType)
  : Cmd unit :=
  if negb (isGameOver gameState) && negb (isPaused gameState)
  then moveDown gameState randomType
  else ret tt.

(** ** Sessions *)

(** What can happen to a session: a key, a tick of the interval, a
    direct call of one of the functions the hook returns, or the oldest
    timeout firing (all delays are equal, so timeouts fire in the order
    they were set).  Each event carries the piece kinds [Math.random]
    selects while it is handled.

    There is no clock: events come in any order.  The program is more
    restricted than that.  The effect of [App] clears its interval of
    1000 and sets it again at every change of the state, and a callback
    of 800 is always scheduled together with such a change, so in the
    program no tick comes while a callback is pending.  The runs of the
    program are among the runs below; what holds of every run below
    holds of the program. *)
Inductive Event : Type :=
| KeyDown (key : string) (randomType : TetrominoType)
| Tick (randomType : TetrominoType)
| CallMoveLeft
| CallMoveRight
| CallMoveDown (randomType : TetrominoType)
| CallRotate
| CallHardDrop (randomType : TetrominoType)
| CallResetGame (first second : TetrominoType)
| TimeoutFires (randomType : TetrominoType).

(** Enough tests for the loop of [hardDrop] whenever it ends at all
    ([dropLoop_ends], [dropLoop_diverges]). *)
Definition dropFuel (gameState : GameState) : nat :=
  S (Z.to_nat (BOARD_HEIGHT - row (currentPosition gameState))).

(** Events are handled one at a time, each by the callbacks of the
    latest render: [gameState] is the state the previous event left. *)
Definition handle (ev : Event) (w : World) : World * Outcome unit :=
  let gameState := state w in
  match ev with
  | KeyDown key randomType =>
      handleKeyPress (dropFuel gameState) gameState key randomType w
  | Tick randomType => gameLoop gameState randomType w
  | CallMoveLeft => moveLeft gameState w
  | CallMoveRight => moveRight gameState w
  | CallMoveDown randomType => moveDown gameState randomType w
  | CallRotate => rotate gameState w
  | CallHardDrop randomType =>
      hardDrop (dropFuel gameState) gameState randomType w
  | CallResetGame first second => resetGame first second w
  | TimeoutFires randomType =>
      match timeouts w with
      | [] => (w, Ok tt)
      | t :: rest => phaseTwo t randomType (mkWorld (state w) rest)
      end
  end.

(** An exception ends the handler that raised it and the session goes
    on; a handler that never returns ends the session. *)
Definition step (ev : Event) (w : World) : option World :=
  match handle ev w with
  | (_, Stop OutOfFuel) => None
  | (w', _) => Some w'
  end.

Fixpoint runEvents (evs : list Event) (w : World) : option World :=
  match evs with
  | [] => Some w
  | ev :: rest =>
      match step ev w with
      | Some w' => runEvents rest w'
      | None => None
      end
  end.

Definition initialWorld (first second : TetrominoType) : World :=
  mkWorld (initialState first second) [].

Definition reachable (w : World) : Prop :=
  exists first second evs, runEvents evs (initialWorld first second) = Some w.

(** ** App.tsx: what the view derives from the state *)

(** The [reduce] of the effect that finds the rows to animate: [acc]
    grows by the index of every row whose cells are all 1. *)
Fixpoint reduceRows (acc : list Z) (index : Z) (rows : Board) : list Z :=
  match rows with
  | [] => acc
  | cells :: rest =>
      reduceRows (if isFull cells then acc ++ [index] else acc) (index + 1) rest
  end.

(** The value the effect hands to [setClearingRows]. *)
Definition rowsToAnimate (board : Board) : list Z :=
  if existsb isFull board then reduceRows [] 0 board else [].

(** [shapeRow.some((isSet, colIndex) => isSet && row === ... && col === ...)]
    from column [colIndex] on, for the board cell at row [r], column [c]. *)
Fixpoint someCell (position : Position) (r c rowIndex colIndex : Z)
  (shapeRow : list Z) : bool :=
  match shapeRow with
  | [] => false
  | isSet :: rest =>
      (truthy isSet && (r =? row position + rowIndex)
       && (c =? col position + colIndex))
      || someCell position r c rowIndex (colIndex + 1) rest
  end.

Fixpoint someRow (position : Position) (r c rowIndex : Z)
  (rows : list (list Z)) : bool :=
  match rows with
  | [] => false
  | shapeRow :: rest =>
      someCell position r c rowIndex 0 shapeRow
      || someRow position r c (rowIndex + 1) rest
  end.

(** [isCurrent] of [renderCell]: the board cell at row [r], column [c]
    is drawn as part of the falling piece. *)
Definition isCurrent (currentPiece : Tetromino) (currentPosition : Position)
  (r c : Z) : bool :=
  someRow currentPosition r c 0 (shape currentPiece).

(** ** Well-formed data and the placement of a piece *)

(** A board of [BOARD_HEIGHT] rows of [BOARD_WIDTH] cells. *)
Definition boardOk (b : Board) : Prop :=
  length b = Z.to_nat BOARD_HEIGHT /\
  Forall (fun cells => length cells = Z.to_nat BOARD_WIDTH) b.

(** The matrix [rows] holds a truthy number at row [r], column [c]. *)
Definition filledIn (rows : list (list Z)) (r c : nat) : Prop :=
  exists cells cell,
    nth_error rows r = Some cells /\ nth_error cells c = Some cell /\ cell <> 0.

(** Every filled cell of the piece lies on the board. *)
Definition inBounds (piece : Tetromino) (position : Position) : Prop :=
  forall r c, filledIn (shape piece) r c ->
    0 <= row position + Z.of_nat r < BOARD_HEIGHT /\
    0 <= col position + Z.of_nat c < BOARD_WIDTH.

(** No filled cell of the piece lies on a filled cell of the board. *)
Definition noOverlap (b : Board) (piece : Tetromino) (position : Position)
  : Prop :=
  forall r c, filledIn (shape piece) r c ->
    ~ filledIn b (Z.to_nat (row position + Z.of_nat r))
                 (Z.to_nat (col position + Z.of_nat c)).

Definition pieceFits (b : Board) (piece : Tetromino) (position : Position)
  : Prop :=
  inBounds piece position /\ noOverlap b piece position.

(** The board cell at [(R, C)] lets a filled shape cell through: this is
    what [cellAdmits] tests, the existence of the board row included. *)
Definition admitted (b : Board) (R C : Z) : Prop :=
  0 <= R < BOARD_HEIGHT /\ 0 <= C < BOARD_WIDTH /\
  exists cells, nth_error b (Z.to_nat R) = Some cells /\
    forall v, nth_error cells (Z.to_nat C) = Some v -> v = 0.

(** ** Notions used in the statements *)

(** An [N] by [N] matrix. *)
Definition squareOf (N : nat) (rows : list (list Z)) : Prop :=
  length rows = N /\ Forall (fun cells => length cells = N) rows.

(** [rows[r][c]], [None] standing for [undefined]. *)
Definition cellAt (rows : list (list Z)) (r c : nat) : option Z :=
  match nth_error rows r with
  | Some cells => nth_error cells c
  | None => None
  end.

Fixpoint rotateTimes (n : nat) (piece : Tetromino) : Outcome Tetromino :=
  match n with
  | O => Ok piece
  | S m => obind (rotateTimes m piece) rotatePiece
  end.

(** The pieces the engine handles: square, not empty, with a filled
    cell. *)
Definition pieceOk (piece : Tetromino) : Prop :=
  exists N, (0 < N)%nat /\ squareOf N (shape piece) /\
            exists r c, filledIn (shape piece) r c.

(** The fields [moveLeft], [moveRight] and [rotate] never write. *)
Definition sameFrame (before after : GameState) : Prop :=
  board after = board before /\
  nextPiece after = nextPiece before /\
  score after = score before /\
  isGameOver after = isGameOver before /\
  isPaused after = isPaused before.

Definition timeoutOk (t : Timeout) : Prop :=
  boardOk (capturedBoard t) /\
  exists key, nextPiece (capturedState t) = TETROMINOES key.

Record sessionOk (w : World) : Prop := mkSessionOk {
  ok_board : boardOk (board (state w));
  ok_piece : pieceOk (currentPiece (state w));
  ok_next : exists key, nextPiece (state w) = TETROMINOES key;
  ok_bounds : inBounds (currentPiece (state w)) (currentPosition (state w));
  ok_timeouts : Forall timeoutOk (timeouts w);
  ok_overlap :
    isGameOver (state w) = false -> timeouts w = [] ->
    noOverlap (board (state w)) (currentPiece (state w))
      (currentPosition (state w))
}.

(** What the specification asks of [hardDrop], in its own words:
    [moveDown] repeated for as long as the row below the piece is free,
    and then once more, which is the landing.  At most [fuel] calls. *)
Fixpoint moveDownUntilLanded (fuel : nat) (randomType : TetrominoType)
  (w : World) : option World :=
  match fuel with
  | O => None
  | S fuel' =>
      let gs := state w in
      let below :=
        mkPosition (row (currentPosition gs) + 1) (col (currentPosition gs)) in
      match isValidMove (board gs) (currentPiece gs) below with
      | Ok true =>
          match step (CallMoveDown randomType) w with
          | Some w' => moveDownUntilLanded fuel' randomType w'
          | None => None
          end
      | _ => step (CallMoveDown randomType) w
      end
  end.

(** Reads the fields of a state that is written out. *)
Ltac fields :=
  cbn [state timeouts board currentPiece currentPosition nextPiece score
       isGameOver isPaused] in *.

(** The same, through the object spreads. *)
Ltac spreads :=
  unfold withSettled, withPosition, withPiece, withBoard, withPaused,
    initialState, getRandomTetromino in *;
  fields.

(** The piece placed at [position] has a filled cell on the board cell
    at row [R], column [C]. *)
Definition covers (piece : Tetromino) (position : Position) (R C : nat)
  : Prop :=
  exists r c, filledIn (shape piece) r c /\
    Z.of_nat R = row position + Z.of_nat r /\
    Z.of_nat C = col position + Z.of_nat c.

(** [m] is [b] with the cells in [S] set to 1, as far as the cells
    inside the constant bounds go. *)
Definition painted (S : nat -> nat -> Prop) (b m : Board) : Prop :=
  forall R C, (R < Z.to_nat BOARD_HEIGHT)%nat -> (C < Z.to_nat BOARD_WIDTH)%nat ->
    (S R C -> cellAt m R C = Some 1) /\
    (cellAt m R C = cellAt b R C \/ (S R C /\ cellAt m R C = Some 1)).

(** Events that replace the state whatever the flags are. *)
Definition isResetOrTimeout (ev : Event) : bool :=
  match ev with
  | CallResetGame _ _ | TimeoutFires _ => true
  | _ => false
  end.

Definition isEnter (ev : Event) : bool :=
  match ev with
  | KeyDown key _ => String.eqb key "Enter"
  | _ => false
  end.

(** Every number on the board is 0 or 1. *)
Definition binary (b : Board) : Prop :=
  forall cells v, In cells b -> In v cells -> v = 0 \/ v = 1.

(** What handling one event can do to a session whose state is [gs] and
    whose scheduled callbacks are [ts]. *)
Inductive effect (gs : GameState) (ts : list Timeout) : World -> Prop :=
| eff_none : effect gs ts (mkWorld gs ts)
| eff_position (pos : Position) :
    isGameOver gs = false -> isPaused gs = false ->
    isValidMove (board gs) (currentPiece gs) pos = Ok true ->
    effect gs ts (mkWorld (withPosition pos gs) ts)
| eff_piece (rotated : Tetromino) :
    isGameOver gs = false -> isPaused gs = false ->
    rotatePiece (currentPiece gs) = Ok rotated ->
    isValidMove (board gs) rotated (currentPosition gs) = Ok true ->
    effect gs ts (mkWorld (withPiece rotated gs) ts)
| eff_paused :
    effect gs ts (mkWorld (withPaused (negb (isPaused gs)) gs) ts)
| eff_window (merged : Board) (cl : Cleared) :
    isGameOver gs = false -> isPaused gs = false ->
    mergePieceWithBoard (board gs) (currentPiece gs) (currentPosition gs)
    = Ok merged ->
    clearLines merged = Ok cl -> clearedRows cl <> [] ->
    effect gs ts
      (mkWorld (withBoard merged gs)
         (ts ++ [mkTimeout 800 gs (newBoard cl) (linesCleared cl)]))
| eff_settle (merged : Board) (drawn : TetrominoType) (valid : bool) :
    isGameOver gs = false -> isPaused gs = false ->
    mergePieceWithBoard (board gs) (currentPiece gs) (currentPosition gs)
    = Ok merged ->
    fullRowsFrom 0 merged = [] ->
    isValidMove merged (nextPiece gs) spawnPosition = Ok valid ->
    effect gs ts
      (mkWorld
         (withSettled merged (nextPiece gs) spawnPosition
            (getRandomTetromino drawn) (score gs) (negb valid) gs) ts)
| eff_reset (first second : TetrominoType) :
    effect gs ts (mkWorld (initialState first second) ts)
| eff_fire (t : Timeout) (rest : list Timeout) (drawn : TetrominoType)
    (valid : bool) :
    ts = t :: rest ->
    isValidMove (capturedBoard t) (nextPiece (capturedState t)) spawnPosition
    = Ok valid ->
    effect gs ts
      (mkWorld
         (withSettled (capturedBoard t) (nextPiece (capturedState t))
            spawnPosition (getRandomTetromino drawn)
            (score (capturedState t) + capturedLines t * 100)
            (negb valid) gs) rest).

(** The state [s] shows what phase 1 of the landing that scheduled [t]
    published: the piece and the position of that landing, on the board
    the piece was merged into. *)
Definition publishedWindow (t : Timeout) (s : GameState) : Prop :=
  exists merged,
    mergePieceWithBoard (board (capturedState t))
      (currentPiece (capturedState t)) (currentPosition (capturedState t))
    = Ok merged /\
    board s = merged /\
    currentPiece s = currentPiece (capturedState t) /\
    currentPosition s = currentPosition (capturedState t).

(** ** Boards, states and runs used as examples *)

(** The board of the line-clear example: rows 3 and 7 full, the rest
    empty. *)
Definition rowsThreeAndSeven : Board :=
  update 3 (repeat 1 10) (update 7 (repeat 1 10) createEmptyBoard).

(** A state whose piece, once merged, completes the bottom row. *)
Definition landingState : GameState :=
  mkGameState
    (update 19 [1; 1; 1; 1; 1; 1; 1; 1; 0; 0] createEmptyBoard)
    (TETROMINOES TypeO) (mkPosition 18 8) (TETROMINOES TypeT) 0 false false.

Definition landingMerged : Board :=
  update 18 [0; 0; 0; 0; 0; 0; 0; 0; 1; 1]
    (update 19 (repeat 1 10) createEmptyBoard).

Definition landingCleared : Cleared :=
  mkCleared [19] (update 19 [0; 0; 0; 0; 0; 0; 0; 0; 1; 1] createEmptyBoard) 1.

(** Ten O pieces let fall in the spawn column: the tenth lands at the
    top and the game is over. *)
Definition stackedEvents : list Event := repeat (CallMoveDown TypeO) 100.

(** Three pieces that fill the bottom row: an I at the left, an I in
    the middle, an O at the right.  The last [moveDown] lands the O and
    opens the line-clear window. *)
Definition clearingEvents : list Event :=
  repeat CallMoveLeft 4 ++ repeat (CallMoveDown TypeO) 19
  ++ repeat (CallMoveDown TypeT) 19
  ++ repeat CallMoveRight 4 ++ repeat (CallMoveDown TypeO) 19.

(** The board on which an O piece rests at the bottom of the spawn
    column. *)
Definition restingO : Board :=
  update 18 [0; 0; 0; 0; 1; 1; 0; 0; 0; 0]
    (update 19 [0; 0; 0; 0; 1; 1; 0; 0; 0; 0] createEmptyBoard).

(** ** Placement: what [isValidMove] decides *)

Lemma truthy_true (cell : Z) : truthy cell = true <-> cell <> 0.
Proof.
  unfold truthy. rewrite negb_true_iff, Z.eqb_neq. tauto.
Qed.

Lemma truthy_false (cell : Z) : truthy cell = false <-> cell = 0.
Proof.
  unfold truthy. rewrite negb_false_iff, Z.eqb_eq. tauto.
Qed.

Section Placement.

Variables (b : Board) (pos : Position).

Lemma cellAdmits_true (r c cell : Z) :
  cellAdmits b pos r c cell = Ok true <->
  (cell <> 0 -> admitted b (row pos + r) (col pos + c)).
Proof.
  unfold cellAdmits, admitted.
  destruct (truthy cell) eqn:Hc.
  - apply truthy_true in Hc.
    destruct ((row pos + r <? 0) || (row pos + r >=? BOARD_HEIGHT)
              || (col pos + c <? 0) || (col pos + c >=? BOARD_WIDTH)) eqn:Hb.
    + split; [discriminate|]. intros H. destruct (H Hc) as (Hr & Hcl & _).
      rewrite !orb_true_iff in Hb. lia.
    + rewrite !orb_false_iff in Hb. destruct Hb as [[[H1 H2] H3] H4].
      assert (0 <= row pos + r < BOARD_HEIGHT) by lia.
      assert (0 <= col pos + c < BOARD_WIDTH) by lia.
      destruct (nth_error b (Z.to_nat (row pos + r))) as [cells|] eqn:Hrow.
      * destruct (nth_error cells (Z.to_nat (col pos + c))) as [v|] eqn:Hv.
        -- split.
           ++ intros Heq _. repeat split; try lia.
              exists cells. split; [reflexivity|].
              intros v' Hv'. rewrite Hv in Hv'. injection Hv' as <-.
              injection Heq as Heq. apply negb_true_iff in Heq.
              now apply truthy_false.
           ++ intros Hadm. destruct (Hadm Hc) as (_ & _ & cells' & Hc' & Hz).
              injection Hc' as <-. rewrite (Hz v Hv). reflexivity.
        -- split; [|reflexivity]. intros _ _. repeat split; try lia.
           exists cells. split; [reflexivity|]. intros v Hv'. rewrite Hv in Hv'.
           discriminate.
      * split; [discriminate|]. intros Hadm.
        destruct (Hadm Hc) as (_ & _ & cells & Hc' & _). discriminate.
  - apply truthy_false in Hc. split; [intros _ Hne; contradiction|reflexivity].
Qed.

Lemma cellAdmits_total (r c cell : Z) :
  (Z.to_nat BOARD_HEIGHT <= length b)%nat ->
  exists v, cellAdmits b pos r c cell = Ok v.
Proof.
  intros Hlen. unfold cellAdmits.
  destruct (truthy cell); [|eauto].
  destruct ((row pos + r <? 0) || (row pos + r >=? BOARD_HEIGHT)
            || (col pos + c <? 0) || (col pos + c >=? BOARD_WIDTH)) eqn:Hb;
    [eauto|].
  rewrite !orb_false_iff in Hb. destruct Hb as [[[H1 H2] H3] H4].
  destruct (nth_error b (Z.to_nat (row pos + r))) as [cells|] eqn:Hrow.
  - destruct (nth_error cells (Z.to_nat (col pos + c))); eauto.
  - apply nth_error_None in Hrow. lia.
Qed.

Lemma validCols_true (r : Z) (cells : list Z) :
  forall c0,
    validCols b pos r c0 cells = Ok true <->
    (forall j cell, nth_error cells j = Some cell -> cell <> 0 ->
                    admitted b (row pos + r) (col pos + (c0 + Z.of_nat j))).
Proof.
  induction cells as [|cell rest IH]; intros c0; simpl.
  - split; [|reflexivity]. intros _ [|j] cell H; discriminate.
  - destruct (cellAdmits b pos r c0 cell) as [[|]|e] eqn:Hcell.
    + rewrite IH. pose proof (proj1 (cellAdmits_true _ _ _) Hcell) as Hadm.
      split.
      * intros H [|j] x Hx Hne; simpl in Hx.
        -- injection Hx as <-. replace (c0 + Z.of_nat 0) with c0 by lia.
           now apply Hadm.
        -- replace (c0 + Z.of_nat (S j)) with (c0 + 1 + Z.of_nat j) by lia.
           now apply (H j x).
      * intros H j x Hx Hne.
        replace (c0 + 1 + Z.of_nat j) with (c0 + Z.of_nat (S j)) by lia.
        now apply (H (S j) x).
    + split; [discriminate|]. intros H.
      assert (Hc : cellAdmits b pos r c0 cell = Ok true).
      { apply cellAdmits_true. intros Hne.
        replace c0 with (c0 + Z.of_nat 0) by lia. now apply (H 0%nat cell). }
      congruence.
    + split; [discriminate|]. intros H.
      assert (Hc : cellAdmits b pos r c0 cell = Ok true).
      { apply cellAdmits_true. intros Hne.
        replace c0 with (c0 + Z.of_nat 0) by lia. now apply (H 0%nat cell). }
      congruence.
Qed.

Lemma validCols_total (r : Z) (cells : list Z) :
  (Z.to_nat BOARD_HEIGHT <= length b)%nat ->
  forall c0, exists v, validCols b pos r c0 cells = Ok v.
Proof.
  intros Hlen. induction cells as [|cell rest IH]; intros c0; simpl.
  - eauto.
  - destruct (cellAdmits_total r c0 cell Hlen) as [[|] ->]; eauto.
Qed.

Lemma validRows_true (rows : list (list Z)) :
  forall r0,
    validRows b pos r0 rows = Ok true <->
    (forall i j cells cell,
        nth_error rows i = Some cells -> nth_error cells j = Some cell ->
        cell <> 0 ->
        admitted b (row pos + (r0 + Z.of_nat i)) (col pos + Z.of_nat j)).
Proof.
  induction rows as [|cells rest IH]; intros r0; simpl.
  - split; [|reflexivity]. intros _ [|i] j cells cell H; discriminate.
  - assert (Hhead : validCols b pos r0 0 cells = Ok true <->
                    (forall j cell, nth_error cells j = Some cell -> cell <> 0 ->
                       admitted b (row pos + (r0 + Z.of_nat 0))
                                (col pos + Z.of_nat j))).
    { rewrite validCols_true. replace (r0 + Z.of_nat 0) with r0 by lia.
      split; intros H j cell Hj Hne; specialize (H j cell Hj Hne);
        now replace (0 + Z.of_nat j) with (Z.of_nat j) in * by lia. }
    destruct (validCols b pos r0 0 cells) as [[|]|e] eqn:Hcols.
    + rewrite IH. split.
      * intros H [|i] j cs cell Hi Hj Hne; simpl in Hi.
        -- injection Hi as <-. exact (proj1 Hhead eq_refl j cell Hj Hne).
        -- replace (r0 + Z.of_nat (S i)) with (r0 + 1 + Z.of_nat i) by lia.
           now apply (H i j cs cell).
      * intros H i j cs cell Hi Hj Hne.
        replace (r0 + 1 + Z.of_nat i) with (r0 + Z.of_nat (S i)) by lia.
        now apply (H (S i) j cs cell).
    + split; [discriminate|]. intros H.
      assert (Ok false = Ok true) as Habs; [|discriminate Habs].
      apply (proj2 Hhead). intros j cell Hj Hne. now apply (H 0%nat j cells cell).
    + split; [discriminate|]. intros H.
      assert (@Stop bool e = Ok true) as Habs; [|discriminate Habs].
      apply (proj2 Hhead). intros j cell Hj Hne. now apply (H 0%nat j cells cell).
Qed.

Lemma validRows_total (rows : list (list Z)) :
  (Z.to_nat BOARD_HEIGHT <= length b)%nat ->
  forall r0, exists v, validRows b pos r0 rows = Ok v.
Proof.
  intros Hlen. induction rows as [|cells rest IH]; intros r0; simpl.
  - eauto.
  - destruct (validCols_total r0 cells Hlen 0) as [[|] ->]; eauto.
Qed.

End Placement.

Lemma isValidMove_total (b : Board) (piece : Tetromino) (pos : Position) :
  (Z.to_nat BOARD_HEIGHT <= length b)%nat ->
  exists v, isValidMove b piece pos = Ok v.
Proof.
  intros Hlen. apply validRows_total, Hlen.
Qed.

Lemma isValidMove_admitted (b : Board) (piece : Tetromino) (pos : Position) :
  isValidMove b piece pos = Ok true <->
  (forall r c, filledIn (shape piece) r c ->
               admitted b (row pos + Z.of_nat r) (col pos + Z.of_nat c)).
Proof.
  unfold isValidMove. rewrite validRows_true. split.
  - intros H r c (cells & cell & Hr & Hc & Hne).
    specialize (H r c cells cell Hr Hc Hne).
    now replace (0 + Z.of_nat r) with (Z.of_nat r) in H by lia.
  - intros H i j cells cell Hi Hj Hne.
    replace (0 + Z.of_nat i) with (Z.of_nat i) by lia.
    apply H. now exists cells, cell.
Qed.

(** [isValidMove] answers [true] exactly for a piece that fits. *)
Lemma isValidMove_fits (b : Board) (piece : Tetromino) (pos : Position) :
  (Z.to_nat BOARD_HEIGHT <= length b)%nat ->
  isValidMove b piece pos = Ok true <-> pieceFits b piece pos.
Proof.
  intros Hlen. rewrite isValidMove_admitted. unfold pieceFits, inBounds, noOverlap.
  split.
  - intros H. split; intros r c Hf;
      destruct (H r c Hf) as (Hr & Hc & cells & Hn & Hz).
    + tauto.
    + intros (cells' & v & Hn' & Hv & Hne). rewrite Hn in Hn'.
      injection Hn' as <-. apply Hne, Hz, Hv.
  - intros [Hin Hno] r c Hf. destruct (Hin r c Hf) as [Hr Hc].
    repeat split; try lia.
    destruct (nth_error b (Z.to_nat (row pos + Z.of_nat r))) as [cells|] eqn:Hn.
    + exists cells. split; [reflexivity|]. intros v Hv.
      destruct (Z.eq_dec v 0) as [|Hne]; [assumption|].
      exfalso. apply (Hno r c Hf). now exists cells, v.
    + apply nth_error_None in Hn. unfold BOARD_HEIGHT in *. lia.
Qed.

Lemma isValidMove_fits_weak (b : Board) (piece : Tetromino) (pos : Position) :
  isValidMove b piece pos = Ok true -> pieceFits b piece pos.
Proof.
  rewrite isValidMove_admitted. unfold pieceFits, inBounds, noOverlap.
  intros H. split; intros r c Hf;
    destruct (H r c Hf) as (Hr & Hc & cells & Hn & Hz).
  - tauto.
  - intros (cells' & v & Hn' & Hv & Hne). rewrite Hn in Hn'.
    injection Hn' as <-. apply Hne, Hz, Hv.
Qed.

(** ** Merging keeps the board in shape *)

Lemma update_length {A : Type} (n : nat) (x : A) (l : list A) :
  length (update n x l) = length l.
Proof.
  revert n. induction l as [|y rest IH]; intros [|n]; simpl; auto.
Qed.

Lemma update_Forall {A : Type} (P : A -> Prop) (n : nat) (x : A) (l : list A) :
  Forall P l -> P x -> Forall P (update n x l).
Proof.
  intros Hl Hx. revert n.
  induction Hl as [|y rest Hy Hrest IH]; intros [|n]; simpl; auto.
Qed.

Lemma fillCell_boardOk (b : Board) (R C : Z) :
  boardOk b -> 0 <= R < BOARD_HEIGHT -> 0 <= C < BOARD_WIDTH ->
  exists b', fillCell b R C = Ok b' /\ boardOk b'.
Proof.
  intros [Hlen Hrows] HR HC. unfold fillCell.
  destruct (nth_error b (Z.to_nat R)) as [cells|] eqn:Hn.
  - assert (Hw : length cells = Z.to_nat BOARD_WIDTH).
    { apply nth_error_In in Hn. rewrite Forall_forall in Hrows. auto. }
    assert (Hlt : (Z.to_nat C <? length cells)%nat = true).
    { apply Nat.ltb_lt. rewrite Hw. lia. }
    rewrite Hlt. eexists. split; [reflexivity|]. split.
    + now rewrite update_length.
    + apply update_Forall; [assumption|]. now rewrite update_length.
  - apply nth_error_None in Hn. lia.
Qed.

Section Merging.

Variable pos : Position.

Lemma mergeCell_boardOk (r c cell : Z) (b : Board) :
  boardOk b -> exists b', mergeCell pos r c cell b = Ok b' /\ boardOk b'.
Proof.
  intros Hb. unfold mergeCell. destruct (truthy cell); [|eauto].
  destruct ((row pos + r >=? 0) && (row pos + r <? BOARD_HEIGHT)
            && (col pos + c >=? 0) && (col pos + c <? BOARD_WIDTH)) eqn:Hin;
    [|eauto].
  rewrite !andb_true_iff in Hin. apply fillCell_boardOk; [assumption|lia|lia].
Qed.

Lemma mergeCols_boardOk (r : Z) (cells : list Z) :
  forall c (b : Board), boardOk b ->
    exists b', mergeCols pos r c cells b = Ok b' /\ boardOk b'.
Proof.
  induction cells as [|cell rest IH]; intros c b Hb; simpl.
  - eauto.
  - destruct (mergeCell_boardOk r c cell b Hb) as (b1 & -> & Hb1). simpl.
    now apply IH.
Qed.

Lemma mergeRows_boardOk (rows : list (list Z)) :
  forall r (b : Board), boardOk b ->
    exists b', mergeRows pos r rows b = Ok b' /\ boardOk b'.
Proof.
  induction rows as [|cells rest IH]; intros r b Hb; simpl.
  - eauto.
  - destruct (mergeCols_boardOk r cells 0 b Hb) as (b1 & -> & Hb1). simpl.
    now apply IH.
Qed.

End Merging.

Lemma mergePieceWithBoard_boardOk (b : Board) (piece : Tetromino)
  (pos : Position) :
  boardOk b -> exists b', mergePieceWithBoard b piece pos = Ok b' /\ boardOk b'.
Proof.
  intros Hb. now apply mergeRows_boardOk.
Qed.

(** ** Clearing lines *)

Lemma isFull_spec (cells : list Z) :
  isFull cells = true <-> Forall (fun cell => cell = 1) cells.
Proof.
  unfold isFull. rewrite forallb_forall, Forall_forall.
  split; intros H x Hx; specialize (H x Hx); now apply Z.eqb_eq.
Qed.

Lemma fullRowsFrom_In (rows : Board) :
  forall index i,
    In i (fullRowsFrom index rows) <->
    exists n cells, i = index + Z.of_nat n /\ nth_error rows n = Some cells /\
                    isFull cells = true.
Proof.
  induction rows as [|cells rest IH]; intros index i; simpl.
  - split; [contradiction|]. intros ([|n] & cells & _ & H & _); discriminate.
  - assert (Htail : In i (fullRowsFrom (index + 1) rest) <->
                    exists n cs, i = index + Z.of_nat (S n) /\
                                 nth_error rest n = Some cs /\ isFull cs = true).
    { rewrite IH. split; intros (n & cs & Hi & Hn & Hf); exists n, cs;
        (split; [lia|auto]). }
    destruct (isFull cells) eqn:Hfull; simpl; rewrite ?Htail.
    + split.
      * intros [<-|(n & cs & Hi & Hn & Hf)].
        -- exists 0%nat, cells. repeat split; [lia|assumption].
        -- exists (S n), cs. auto.
      * intros ([|n] & cs & Hi & Hn & Hf); simpl in Hn.
        -- left. lia.
        -- right. exists n, cs. auto.
    + split.
      * intros (n & cs & Hi & Hn & Hf). exists (S n), cs. auto.
      * intros ([|n] & cs & Hi & Hn & Hf); simpl in Hn.
        -- injection Hn as <-. congruence.
        -- exists n, cs. auto.
Qed.

Lemma fullRowsFrom_sorted (rows : Board) :
  forall index, StronglySorted Z.lt (fullRowsFrom index rows).
Proof.
  induction rows as [|cells rest IH]; intros index; simpl.
  - constructor.
  - destruct (isFull cells); [|apply IH].
    constructor; [apply IH|]. apply Forall_forall. intros i Hi.
    apply fullRowsFrom_In in Hi. destruct Hi as (n & _ & -> & _). lia.
Qed.

Lemma fullRowsFrom_length (rows : Board) :
  forall index, length (fullRowsFrom index rows) = length (filter isFull rows).
Proof.
  induction rows as [|cells rest IH]; intros index; simpl; [reflexivity|].
  destruct (isFull cells); simpl; now rewrite IH.
Qed.

Lemma filter_split_length {A : Type} (f : A -> bool) (l : list A) :
  (length (filter f l) + length (filter (fun x => negb (f x)) l))%nat = length l.
Proof.
  induction l as [|x rest IH]; simpl; [reflexivity|].
  destruct (f x); simpl; lia.
Qed.

Lemma filter_Forall {A : Type} (P : A -> Prop) (f : A -> bool) (l : list A) :
  Forall P l -> Forall P (filter f l).
Proof.
  rewrite !Forall_forall. intros H x Hx. apply filter_In in Hx. now apply H.
Qed.

Lemma repeat_Forall {A : Type} (P : A -> Prop) (x : A) (n : nat) :
  P x -> Forall P (repeat x n).
Proof.
  intros Hx. apply Forall_forall. intros y Hy.
  now rewrite (repeat_spec _ _ _ Hy).
Qed.

Lemma clearLines_Ok (b : Board) :
  length b = Z.to_nat BOARD_HEIGHT ->
  clearLines b =
  Ok (mkCleared (fullRowsFrom 0 b)
        (repeat (repeat 0 (Z.to_nat BOARD_WIDTH)) (length (filter isFull b))
         ++ filter (fun cells => negb (isFull cells)) b)
        (Z.of_nat (length (filter isFull b)))).
Proof.
  intros Hlen. unfold clearLines.
  pose proof (filter_split_length isFull b) as Hsplit.
  assert (Hk : BOARD_HEIGHT
               - Z.of_nat (length (filter (fun cells => negb (isFull cells)) b))
               = Z.of_nat (length (filter isFull b))).
  { unfold BOARD_HEIGHT in *. lia. }
  rewrite Hk.
  destruct (Z.of_nat (length (filter isFull b)) <? 0) eqn:Hneg.
  - apply Z.ltb_lt in Hneg. lia.
  - now rewrite Nat2Z.id.
Qed.

Lemma clearLines_boardOk (b : Board) (cl : Cleared) :
  boardOk b -> clearLines b = Ok cl -> boardOk (newBoard cl).
Proof.
  intros [Hlen Hrows] Hcl. rewrite (clearLines_Ok b Hlen) in Hcl.
  injection Hcl as <-. simpl. split.
  - rewrite length_app, repeat_length.
    pose proof (filter_split_length isFull b). lia.
  - apply Forall_app. split.
    + apply repeat_Forall. reflexivity.
    + now apply filter_Forall.
Qed.

(** Without a full row [clearLines] hands the board back. *)
Lemma clearLines_nothing (b : Board) :
  length b = Z.to_nat BOARD_HEIGHT -> fullRowsFrom 0 b = [] ->
  clearLines b = Ok (mkCleared [] b 0).
Proof.
  intros Hlen Hnone. rewrite (clearLines_Ok b Hlen), Hnone.
  pose proof (fullRowsFrom_length b 0) as Hl. rewrite Hnone in Hl. simpl in Hl.
  rewrite <- Hl. simpl.
  pose proof (filter_split_length isFull b) as Hs. rewrite <- Hl in Hs.
  f_equal. f_equal. clear Hlen Hnone Hs. symmetry in Hl.
  induction b as [|cells rest IH]; simpl in *; [reflexivity|].
  destruct (isFull cells); simpl in *; [discriminate|]. now rewrite IH.
Qed.

(** C7.  On a board of BOARD_HEIGHT rows of BOARD_WIDTH cells
    [clearLines] returns: as [clearedRows] the indices, in ascending
    order, of the rows of the input whose cells are all 1; as
    [linesCleared] the number of those rows; and as [newBoard] a board
    of BOARD_HEIGHT rows of BOARD_WIDTH cells made of [linesCleared]
    rows of zeros followed by the rows of the input that are not full,
    in their order. *)
Theorem clearLines_spec (b : Board) :
  boardOk b ->
  exists cl,
    clearLines b = Ok cl /\
    StronglySorted Z.lt (clearedRows cl) /\
    (forall i, In i (clearedRows cl) <->
               0 <= i /\ exists cells, nth_error b (Z.to_nat i) = Some cells /\
                                       Forall (fun cell => cell = 1) cells) /\
    linesCleared cl = Z.of_nat (length (clearedRows cl)) /\
    linesCleared cl =
      Z.of_nat
        (length (filter (fun cells => forallb (fun cell => cell =? 1) cells) b)) /\
    newBoard cl =
      repeat (repeat 0 (Z.to_nat BOARD_WIDTH)) (Z.to_nat (linesCleared cl))
      ++ filter (fun cells => negb (forallb (fun cell => cell =? 1) cells)) b /\
    boardOk (newBoard cl).
Proof.
  intros Hb. pose proof Hb as [Hlen Hrows].
  eexists. split; [apply (clearLines_Ok b Hlen)|]. simpl.
  split; [apply fullRowsFrom_sorted|].
  split.
  { intros i. rewrite fullRowsFrom_In. split.
    - intros (n & cells & -> & Hn & Hf). split; [lia|]. exists cells.
      replace (Z.to_nat (0 + Z.of_nat n)) with n by lia.
      split; [assumption|]. now apply isFull_spec.
    - intros (Hi & cells & Hn & Hf). exists (Z.to_nat i), cells.
      split; [lia|]. split; [assumption|]. now apply isFull_spec. }
  split; [now rewrite fullRowsFrom_length|].
  split; [reflexivity|].
  split; [now rewrite Nat2Z.id|].
  apply (clearLines_boardOk b _ Hb (clearLines_Ok b Hlen)).
Qed.

Lemma boardOk_rowsThreeAndSeven : boardOk rowsThreeAndSeven.
Proof.
  split; [reflexivity|]. repeat constructor.
Qed.

Lemma clearLines_spec_witness :
  boardOk rowsThreeAndSeven /\
  exists cl,
    clearLines rowsThreeAndSeven = Ok cl /\
    StronglySorted Z.lt (clearedRows cl) /\
    (forall i, In i (clearedRows cl) <->
               0 <= i /\ exists cells,
                 nth_error rowsThreeAndSeven (Z.to_nat i) = Some cells /\
                 Forall (fun cell => cell = 1) cells) /\
    linesCleared cl = Z.of_nat (length (clearedRows cl)) /\
    linesCleared cl =
      Z.of_nat (length (filter (fun cells => forallb (fun cell => cell =? 1) cells)
                          rowsThreeAndSeven)) /\
    newBoard cl =
      repeat (repeat 0 (Z.to_nat BOARD_WIDTH)) (Z.to_nat (linesCleared cl))
      ++ filter (fun cells => negb (forallb (fun cell => cell =? 1) cells))
           rowsThreeAndSeven /\
    boardOk (newBoard cl).
Proof.
  split; [exact boardOk_rowsThreeAndSeven|].
  apply (clearLines_spec rowsThreeAndSeven). exact boardOk_rowsThreeAndSeven.
Defined.

(** The line-clear example of the specification. *)
Example clearLines_rowsThreeAndSeven :
  clearLines rowsThreeAndSeven =
  Ok (mkCleared [3; 7] createEmptyBoard 2).
Proof.
  reflexivity.
Qed.

(** ** Rotation *)

Lemma omap_Ok {A B : Type} (f : A -> Outcome B) (l : list A) :
  (forall x, In x l -> exists y, f x = Ok y) ->
  exists ys, omap f l = Ok ys /\ length ys = length l /\
    forall i x, nth_error l i = Some x ->
                exists y, nth_error ys i = Some y /\ f x = Ok y.
Proof.
  induction l as [|x rest IH]; intros Hf; simpl.
  - exists []. repeat split. intros [|i] x H; discriminate.
  - destruct (Hf x (or_introl eq_refl)) as [y Hy].
    destruct IH as (ys & Hys & Hlen & Hnth).
    { intros x' Hx'. apply Hf. now right. }
    exists (y :: ys). rewrite Hy, Hys. simpl. repeat split.
    + now rewrite Hlen.
    + intros [|i] x' Hi; simpl in Hi.
      * injection Hi as <-. now exists y.
      * now apply Hnth.
Qed.

Lemma column_Ok (index : nat) (rows : list (list Z)) :
  Forall (fun cells => (index < length cells)%nat) rows ->
  exists cells, column index rows = Ok cells /\ length cells = length rows /\
    forall r, nth_error cells r = cellAt rows r index.
Proof.
  intros Hrows. unfold column.
  destruct (omap_Ok (fun cells => match nth_error cells index with
                                  | Some cell => Ok cell
                                  | None => Stop UndefinedCell
                                  end) rows) as (col & Hcol & Hlen & Hnth).
  { intros cells Hin. rewrite Forall_forall in Hrows.
    specialize (Hrows cells Hin). apply nth_error_Some in Hrows.
    destruct (nth_error cells index); [eauto|contradiction]. }
  exists col. repeat split; try assumption.
  intros r. unfold cellAt. destruct (nth_error rows r) as [cells|] eqn:Hr.
  - destruct (Hnth r cells Hr) as (y & Hy & Hcell). rewrite Hy.
    destruct (nth_error cells index); [congruence|discriminate].
  - apply nth_error_None. apply nth_error_None in Hr. lia.
Qed.

(** Rotation of a square matrix: it succeeds, the result is square, and
    the cell at [(r, c)] moves to [(c, N - 1 - r)]. *)
Lemma rotatePiece_square (piece : Tetromino) (N : nat) :
  (0 < N)%nat -> squareOf N (shape piece) ->
  exists rotated,
    rotatePiece piece = Ok rotated /\
    type rotated = type piece /\ color rotated = color piece /\
    squareOf N (shape rotated) /\
    forall r c, (r < N)%nat -> (c < N)%nat ->
                cellAt (shape rotated) c (N - 1 - r) = cellAt (shape piece) r c.
Proof.
  intros HN [Hlen Hrows]. unfold rotatePiece.
  destruct (shape piece) as [|first rest] eqn:Hshape; [simpl in Hlen; lia|].
  assert (Hfirst : length first = N) by now inversion Hrows.
  rewrite Hfirst, <- Hshape in *. clear Hshape first rest Hfirst.
  set (f := fun index => obind (column index (shape piece))
                           (fun cells => Ok (rev cells))).
  assert (Hcolumn : forall index, (index < N)%nat ->
            exists cells, column index (shape piece) = Ok cells /\
              length cells = N /\
              forall r, nth_error cells r = cellAt (shape piece) r index).
  { intros index Hindex.
    destruct (column_Ok index (shape piece)) as (cells & Hc & Hl & Hn).
    - eapply Forall_impl; [|exact Hrows]. simpl. intros cells ->. exact Hindex.
    - exists cells. repeat split; [assumption|congruence|assumption]. }
  destruct (omap_Ok f (seq 0 N)) as (newShape & Hnew & Hnl & Hnth).
  { intros index Hin. apply in_seq in Hin.
    destruct (Hcolumn index) as (cells & Hc & _); [lia|].
    exists (rev cells). unfold f. now rewrite Hc. }
  rewrite Hnew. simpl. eexists. split; [reflexivity|]. simpl.
  rewrite length_seq in Hnl.
  assert (Hrow : forall c, (c < N)%nat ->
            exists cells, nth_error newShape c = Some (rev cells) /\
              length cells = N /\
              forall r, nth_error cells r = cellAt (shape piece) r c).
  { intros c Hc. destruct (Hnth c c) as (y & Hy & Hfy).
    - rewrite nth_error_seq. apply Nat.ltb_lt in Hc. now rewrite Hc.
    - destruct (Hcolumn c Hc) as (cells & Hcells & Hl & Hn).
      unfold f in Hfy. rewrite Hcells in Hfy. simpl in Hfy.
      injection Hfy as <-. now exists cells. }
  repeat split; try assumption.
  - apply Forall_forall. intros cells Hin.
    destruct (In_nth_error _ _ Hin) as [c Hc].
    assert (c < N)%nat as Hlt.
    { rewrite <- Hnl. apply nth_error_Some. congruence. }
    destruct (Hrow c Hlt) as (col & Hcol & Hl & _).
    rewrite Hc in Hcol. injection Hcol as ->. now rewrite length_rev.
  - intros r c Hr Hc. destruct (Hrow c Hc) as (col & Hcol & Hl & Hn).
    unfold cellAt at 1. rewrite Hcol, nth_error_rev, Hl.
    assert ((N - 1 - r <? N)%nat = true) as -> by (apply Nat.ltb_lt; lia).
    replace (N - S (N - 1 - r))%nat with r by lia. apply Hn.
Qed.

(** C8.  [rotatePiece] on a piece whose shape is an N by N matrix
    returns a piece of the same type and color whose shape is the N by N
    matrix with [newShape[c][N-1-r] = shape[r][c]], the clockwise quarter
    turn; the result is a new value and the argument is not changed.  Four
    rotations of each of the seven pieces of the catalog give the piece
    back. *)
Theorem rotatePiece_spec :
  (forall (piece : Tetromino) (N : nat),
      (0 < N)%nat -> squareOf N (shape piece) ->
      exists rotated,
        rotatePiece piece = Ok rotated /\
        type rotated = type piece /\ color rotated = color piece /\
        squareOf N (shape rotated) /\
        forall r c, (r < N)%nat -> (c < N)%nat ->
                    cellAt (shape rotated) c (N - 1 - r)
                    = cellAt (shape piece) r c) /\
  (forall key : TetrominoType,
      rotateTimes 4 (TETROMINOES key) = Ok (TETROMINOES key)).
Proof.
  split.
  - intros piece N HN Hsq. now apply rotatePiece_square.
  - intros key. destruct key; reflexivity.
Qed.

Lemma rotatePiece_spec_witness :
  (0 < 3)%nat /\ squareOf 3 (shape (TETROMINOES TypeL)) /\
  exists rotated,
    rotatePiece (TETROMINOES TypeL) = Ok rotated /\
    type rotated = TypeL /\ color rotated = color (TETROMINOES TypeL) /\
    squareOf 3 (shape rotated) /\
    forall r c, (r < 3)%nat -> (c < 3)%nat ->
                cellAt (shape rotated) c (3 - 1 - r)
                = cellAt (shape (TETROMINOES TypeL)) r c.
Proof.
  assert (Hsq : squareOf 3 (shape (TETROMINOES TypeL))).
  { split; [reflexivity|]. repeat constructor. }
  split; [lia|]. split; [exact Hsq|].
  apply (proj1 rotatePiece_spec (TETROMINOES TypeL) 3%nat); [lia|exact Hsq].
Defined.

Example rotatePiece_L :
  rotatePiece (TETROMINOES TypeL)
  = Ok (mkTetromino [[0; 1; 0]; [0; 1; 0]; [0; 1; 1]] TypeL "#f0a000").
Proof.
  reflexivity.
Qed.

Lemma filledIn_cellAt (rows : list (list Z)) (r c : nat) :
  filledIn rows r c <-> exists cell, cellAt rows r c = Some cell /\ cell <> 0.
Proof.
  unfold filledIn, cellAt. split.
  - intros (cells & cell & -> & Hc & Hne). now exists cell.
  - intros (cell & H & Hne). destruct (nth_error rows r) as [cells|];
      [|discriminate]. now exists cells, cell.
Qed.

Lemma catalog_pieceOk (key : TetrominoType) : pieceOk (TETROMINOES key).
Proof.
  assert (Hfilled : filledIn (shape (TETROMINOES key)) 1 1).
  { apply filledIn_cellAt. exists 1. destruct key; split; (reflexivity || lia). }
  destruct key;
    [exists 4%nat|exists 2%nat|exists 3%nat|exists 3%nat
     |exists 3%nat|exists 3%nat|exists 3%nat];
    (split; [lia|]); (split; [split; [reflexivity|repeat constructor]|]);
    now exists 1%nat, 1%nat.
Qed.

Lemma rotatePiece_pieceOk (piece : Tetromino) :
  pieceOk piece ->
  exists rotated, rotatePiece piece = Ok rotated /\ pieceOk rotated.
Proof.
  intros (N & HN & Hsq & r & c & Hfilled).
  destruct (rotatePiece_square piece N HN Hsq)
    as (rotated & Hrot & _ & _ & Hsq' & Hcells).
  exists rotated. split; [assumption|]. exists N.
  repeat split; try apply Hsq'; try assumption.
  assert (r < N /\ c < N)%nat as [Hr Hc].
  { destruct Hfilled as (cells & cell & Hrow & Hcell & _).
    destruct Hsq as [Hlen Hrows]. split.
    - rewrite <- Hlen. apply nth_error_Some. congruence.
    - rewrite Forall_forall in Hrows.
      rewrite <- (Hrows cells (nth_error_In _ _ Hrow)).
      apply nth_error_Some. congruence. }
  exists c, (N - 1 - r)%nat. apply filledIn_cellAt.
  rewrite (Hcells r c Hr Hc). now apply filledIn_cellAt.
Qed.

(** ** The loop of [hardDrop] *)

(** With a filled cell in the piece the loop ends before the piece
    could leave the board: [S (BOARD_HEIGHT - row)] tests are enough. *)
Lemma dropLoop_ends (b : Board) (piece : Tetromino) :
  (Z.to_nat BOARD_HEIGHT <= length b)%nat ->
  (exists r c, filledIn (shape piece) r c) ->
  forall n pos,
    BOARD_HEIGHT - row pos <= Z.of_nat n ->
    exists pos', dropLoop (S n) b piece pos = Ok pos'.
Proof.
  intros Hlen (r & c & Hfilled). induction n as [|n IH]; intros pos Hn.
  - simpl.
    destruct (isValidMove_total b piece (mkPosition (row pos + 1) (col pos)) Hlen)
      as [[|] Hv]; rewrite Hv; [|eauto].
    apply isValidMove_fits_weak in Hv. destruct Hv as [Hin _].
    destruct (Hin r c Hfilled) as [Hrow _]. cbn [row] in Hrow.
    unfold BOARD_HEIGHT in *. lia.
  - remember (S n) as m eqn:Hm. simpl.
    destruct (isValidMove_total b piece (mkPosition (row pos + 1) (col pos)) Hlen)
      as [[|] Hv]; rewrite Hv; [|eauto].
    subst m. apply IH. cbn [row]. unfold BOARD_HEIGHT in *. lia.
Qed.

Lemma validRows_empty_cells (b : Board) (pos : Position) (rows : list (list Z)) :
  (forall r c, ~ filledIn rows r c) ->
  forall r0, validRows b pos r0 rows = Ok true.
Proof.
  intros Hnone r0. apply validRows_true. intros i j cells cell Hi Hj Hne.
  exfalso. apply (Hnone i j). now exists cells, cell.
Qed.

(** Without a filled cell every test succeeds and the loop of the
    source never ends: no bound is enough. *)
Lemma dropLoop_diverges (b : Board) (piece : Tetromino) :
  (forall r c, ~ filledIn (shape piece) r c) ->
  forall fuel pos, dropLoop fuel b piece pos = Stop OutOfFuel.
Proof.
  intros Hnone. induction fuel as [|fuel IH]; intros pos; simpl.
  - reflexivity.
  - unfold isValidMove. rewrite validRows_empty_cells by assumption. apply IH.
Qed.

(** The loop leaves the column alone, and returns the start position
    when the row below it is not free. *)
Lemma dropLoop_blocked (fuel : nat) (b : Board) (piece : Tetromino)
  (pos pos' : Position) :
  isValidMove b piece (mkPosition (row pos + 1) (col pos)) = Ok false ->
  dropLoop fuel b piece pos = Ok pos' -> pos' = pos.
Proof.
  intros Hv. destruct fuel as [|fuel]; simpl; [discriminate|].
  rewrite Hv. congruence.
Qed.

(** ** The commands on the state they were created with *)

Lemma withPosition_same (gs : GameState) :
  withPosition (currentPosition gs) gs = gs.
Proof.
  now destruct gs.
Qed.

(** Inside [hardDrop] the call of [moveDown] still sees the position
    the piece had before the loop, so its own update of the position,
    queued second, replaces the one [hardDrop] queued: whenever the loop
    returns, [hardDrop] leaves the session as a single [moveDown] does. *)
Lemma hardDrop_as_moveDown (fuel : nat) (gs : GameState)
  (randomType : TetrominoType) (ts : list Timeout) (pos' : Position) :
  dropLoop fuel (board gs) (currentPiece gs) (currentPosition gs) = Ok pos' ->
  hardDrop fuel gs randomType (mkWorld gs ts)
  = moveDown gs randomType (mkWorld gs ts).
Proof.
  intros Hloop. unfold hardDrop, moveDown.
  destruct (isGameOver gs || isPaused gs); [reflexivity|].
  unfold bind at 1. unfold lift at 1. rewrite Hloop.
  unfold bind at 1. unfold setGameState at 1. cbn [state timeouts].
  destruct (isValidMove (board gs) (currentPiece gs)
              (mkPosition (row (currentPosition gs) + 1)
                 (col (currentPosition gs)))) as [[|]|e] eqn:Hv.
  - reflexivity.
  - rewrite (dropLoop_blocked fuel _ _ _ _ Hv Hloop), withPosition_same.
    reflexivity.
  - destruct fuel as [|fuel]; simpl in Hloop; [discriminate|].
    rewrite Hv in Hloop. discriminate.
Qed.

Lemma fullRowsFrom_none (b : Board) :
  (forall cells, In cells b -> ~ Forall (fun cell => cell = 1) cells) ->
  forall index, fullRowsFrom index b = [].
Proof.
  induction b as [|cells rest IH]; intros Hnone index; simpl; [reflexivity|].
  destruct (isFull cells) eqn:Hfull.
  - exfalso. apply (Hnone cells (or_introl eq_refl)). now apply isFull_spec.
  - apply IH. intros cs Hin. apply Hnone. now right.
Qed.

Lemma clearLines_height (b : Board) (cl : Cleared) :
  clearLines b = Ok cl -> length (newBoard cl) = Z.to_nat BOARD_HEIGHT.
Proof.
  unfold clearLines.
  remember (filter (fun cells => negb (isFull cells)) b) as kept eqn:Hkept.
  remember (BOARD_HEIGHT - Z.of_nat (length kept)) as k eqn:Hk.
  destruct (k <? 0) eqn:Hneg; [discriminate|].
  intros H. injection H as <-. cbn [newBoard]. apply Z.ltb_ge in Hneg.
  rewrite length_app, repeat_length. unfold BOARD_HEIGHT in *. lia.
Qed.

Lemma boardOk_createEmptyBoard : boardOk createEmptyBoard.
Proof.
  split; [reflexivity|]. repeat constructor.
Qed.

(** C6.  With both flags false, when the piece has landed and the merge
    has at least one full row, [moveDown] does two things at once: it
    sets [board] to the merged board, full rows still in place, leaving
    [currentPiece], [currentPosition], [nextPiece], [score] and
    [isGameOver] as they were, and it schedules a callback with a delay
    of 800.  When that callback runs it sets [board] to the board
    [clearLines] returned, [currentPiece] to the [nextPiece] of the
    landing, [currentPosition] to row 0, column 4, [nextPiece] to the
    piece drawn then, [score] to the score of the landing plus 100 for
    each cleared line, and [isGameOver] to true exactly when the new
    piece does not fit at the spawn position on the cleared board. *)
Theorem moveDown_two_phase (gs : GameState) (randomType : TetrominoType)
  (ts : list Timeout) (merged : Board) (cl : Cleared) :
  isGameOver gs = false -> isPaused gs = false -> boardOk (board gs) ->
  isValidMove (board gs) (currentPiece gs)
    (mkPosition (row (currentPosition gs) + 1) (col (currentPosition gs)))
  = Ok false ->
  mergePieceWithBoard (board gs) (currentPiece gs) (currentPosition gs)
  = Ok merged ->
  clearLines merged = Ok cl ->
  clearedRows cl <> [] ->
  let t := mkTimeout 800 gs (newBoard cl) (linesCleared cl) in
  moveDown gs randomType (mkWorld gs ts)
  = (mkWorld
       (mkGameState merged (currentPiece gs) (currentPosition gs)
          (nextPiece gs) (score gs) false false)
       (ts ++ [t]),
     Ok tt) /\
  linesCleared cl = Z.of_nat (length (clearedRows cl)) /\
  exists spawnValid,
    isValidMove (newBoard cl) (nextPiece gs) (mkPosition 0 4) = Ok spawnValid /\
    (spawnValid = true <->
     pieceFits (newBoard cl) (nextPiece gs) (mkPosition 0 4)) /\
    (forall drawn prev rest,
        phaseTwo t drawn (mkWorld prev rest)
        = (mkWorld
             (mkGameState (newBoard cl) (nextPiece gs) (mkPosition 0 4)
                (TETROMINOES drawn) (score gs + 100 * linesCleared cl)
                (negb spawnValid) (isPaused prev))
             rest,
           Ok tt)) /\
    (forall drawn,
        runEvents [CallMoveDown randomType; TimeoutFires drawn] (mkWorld gs [])
        = Some
            (mkWorld
               (mkGameState (newBoard cl) (nextPiece gs) (mkPosition 0 4)
                  (TETROMINOES drawn) (score gs + 100 * linesCleared cl)
                  (negb spawnValid) false)
               [])).
Proof.
  intros Hover Hpaused Hb Hvalid Hmerged Hcl Hrows t.
  assert (Hmb : boardOk merged).
  { destruct (mergePieceWithBoard_boardOk (board gs) (currentPiece gs)
                (currentPosition gs) Hb) as (m & Hm & Hmb). congruence. }
  assert (Hclen : (Z.to_nat BOARD_HEIGHT <= length (newBoard cl))%nat)
    by (rewrite (clearLines_height merged cl Hcl); lia).
  destruct (isValidMove_total (newBoard cl) (nextPiece gs) (mkPosition 0 4) Hclen)
    as [spawnValid Hspawn].
  assert (Hmove : forall ts',
    moveDown gs randomType (mkWorld gs ts')
    = (mkWorld
         (mkGameState merged (currentPiece gs) (currentPosition gs)
            (nextPiece gs) (score gs) false false)
         (ts' ++ [t]),
       Ok tt)).
  { intros ts'. unfold moveDown. rewrite Hover, Hpaused. cbn [orb].
    unfold bind at 1. unfold lift at 1. rewrite Hvalid.
    unfold bind at 1. unfold lift at 1. rewrite Hmerged.
    unfold bind at 1. unfold lift at 1. rewrite Hcl.
    destruct (clearedRows cl) as [|i rest] eqn:Hcleared; [contradiction|].
    cbn [length Nat.ltb Nat.leb]. unfold bind, setGameState, setTimeout, withBoard.
    cbn [state timeouts]. now rewrite Hover, Hpaused. }
  assert (Hfire : forall drawn prev rest,
    phaseTwo t drawn (mkWorld prev rest)
    = (mkWorld
         (mkGameState (newBoard cl) (nextPiece gs) (mkPosition 0 4)
            (TETROMINOES drawn) (score gs + 100 * linesCleared cl)
            (negb spawnValid) (isPaused prev))
         rest,
       Ok tt)).
  { intros drawn prev rest. unfold phaseTwo, t.
    cbn [capturedState capturedBoard capturedLines].
    unfold bind, lift. change spawnPosition with (mkPosition 0 4).
    rewrite Hspawn. unfold setGameState, withSettled, getRandomTetromino.
    cbn [state timeouts].
    now replace (score gs + linesCleared cl * 100)
      with (score gs + 100 * linesCleared cl) by lia. }
  split; [exact (Hmove ts)|].
  split.
  { rewrite (clearLines_Ok merged (proj1 Hmb)) in Hcl. injection Hcl as <-.
    cbn [linesCleared clearedRows]. now rewrite fullRowsFrom_length. }
  exists spawnValid. split; [exact Hspawn|]. split.
  { split.
    - intros ->. now apply isValidMove_fits_weak.
    - intros Hfit. apply (isValidMove_fits (newBoard cl) _ _ Hclen) in Hfit.
      congruence. }
  split; [exact Hfire|].
  intros drawn. cbn [runEvents]. unfold step.
  cbn [handle state]. rewrite Hmove. cbn [app].
  cbn [handle timeouts state]. rewrite Hfire. reflexivity.
Qed.

Lemma moveDown_two_phase_witness :
  let t := mkTimeout 800 landingState (newBoard landingCleared)
             (linesCleared landingCleared) in
  moveDown landingState TypeL (mkWorld landingState [])
  = (mkWorld
       (mkGameState landingMerged (currentPiece landingState)
          (currentPosition landingState) (nextPiece landingState)
          (score landingState) false false)
       ([] ++ [t]),
     Ok tt) /\
  linesCleared landingCleared
  = Z.of_nat (length (clearedRows landingCleared)) /\
  exists spawnValid,
    isValidMove (newBoard landingCleared) (nextPiece landingState)
      (mkPosition 0 4) = Ok spawnValid /\
    (spawnValid = true <->
     pieceFits (newBoard landingCleared) (nextPiece landingState)
       (mkPosition 0 4)) /\
    (forall drawn prev rest,
        phaseTwo t drawn (mkWorld prev rest)
        = (mkWorld
             (mkGameState (newBoard landingCleared) (nextPiece landingState)
                (mkPosition 0 4) (TETROMINOES drawn)
                (score landingState + 100 * linesCleared landingCleared)
                (negb spawnValid) (isPaused prev))
             rest,
           Ok tt)) /\
    (forall drawn,
        runEvents [CallMoveDown TypeL; TimeoutFires drawn]
          (mkWorld landingState [])
        = Some
            (mkWorld
               (mkGameState (newBoard landingCleared) (nextPiece landingState)
                  (mkPosition 0 4) (TETROMINOES drawn)
                  (score landingState + 100 * linesCleared landingCleared)
                  (negb spawnValid) false)
               [])).
Proof.
  apply (moveDown_two_phase landingState TypeL [] landingMerged landingCleared);
    try reflexivity.
  - split; [reflexivity|]. repeat constructor.
  - discriminate.
Defined.

(** C9.  With both flags false, on a board of at least BOARD_HEIGHT
    rows and for a current piece with a square, non-empty shape:
    [moveLeft] and [moveRight] set [currentPosition.col] to [col - 1] and
    [col + 1] when [isValidMove] accepts that position and leave the
    session as it is when it does not; [rotate] replaces [currentPiece]
    by [rotatePiece(currentPiece)] when [isValidMove] accepts it at the
    current position, no other position being tried, and leaves the
    session as it is when it does not.  None of them raises an error. *)
Theorem moves_spec (w : World) (N : nat) :
  isGameOver (state w) = false -> isPaused (state w) = false ->
  (Z.to_nat BOARD_HEIGHT <= length (board (state w)))%nat ->
  (0 < N)%nat -> squareOf N (shape (currentPiece (state w))) ->
  let gs := state w in
  let left := mkPosition (row (currentPosition gs)) (col (currentPosition gs) - 1) in
  let right := mkPosition (row (currentPosition gs)) (col (currentPosition gs) + 1) in
  (exists valid,
      isValidMove (board gs) (currentPiece gs) left = Ok valid /\
      handle CallMoveLeft w
      = (if valid
         then mkWorld
                (mkGameState (board gs) (currentPiece gs) left (nextPiece gs)
                   (score gs) false false) (timeouts w)
         else w,
         Ok tt)) /\
  (exists valid,
      isValidMove (board gs) (currentPiece gs) right = Ok valid /\
      handle CallMoveRight w
      = (if valid
         then mkWorld
                (mkGameState (board gs) (currentPiece gs) right (nextPiece gs)
                   (score gs) false false) (timeouts w)
         else w,
         Ok tt)) /\
  (exists rotatedPiece valid,
      rotatePiece (currentPiece gs) = Ok rotatedPiece /\
      isValidMove (board gs) rotatedPiece (currentPosition gs) = Ok valid /\
      handle CallRotate w
      = (if valid
         then mkWorld
                (mkGameState (board gs) rotatedPiece (currentPosition gs)
                   (nextPiece gs) (score gs) false false) (timeouts w)
         else w,
         Ok tt)).
Proof.
  destruct w as [gs ts]. cbn [state timeouts].
  intros Hover Hpaused Hlen HN Hsq. cbn zeta. repeat split.
  - destruct (isValidMove_total (board gs) (currentPiece gs)
                (mkPosition (row (currentPosition gs))
                   (col (currentPosition gs) - 1)) Hlen) as [valid Hvalid].
    exists valid. split; [assumption|].
    cbn [handle state]. unfold moveLeft. rewrite Hover, Hpaused. cbn [orb].
    unfold bind, lift. rewrite Hvalid. destruct valid; [|reflexivity].
    unfold setGameState, withPosition. cbn [state timeouts].
    now rewrite Hover, Hpaused.
  - destruct (isValidMove_total (board gs) (currentPiece gs)
                (mkPosition (row (currentPosition gs))
                   (col (currentPosition gs) + 1)) Hlen) as [valid Hvalid].
    exists valid. split; [assumption|].
    cbn [handle state]. unfold moveRight. rewrite Hover, Hpaused. cbn [orb].
    unfold bind, lift. rewrite Hvalid. destruct valid; [|reflexivity].
    unfold setGameState, withPosition. cbn [state timeouts].
    now rewrite Hover, Hpaused.
  - destruct (rotatePiece_square (currentPiece gs) N HN Hsq)
      as (rotatedPiece & Hrot & _).
    destruct (isValidMove_total (board gs) rotatedPiece (currentPosition gs) Hlen)
      as [valid Hvalid].
    exists rotatedPiece, valid. split; [assumption|]. split; [assumption|].
    cbn [handle state]. unfold rotate. rewrite Hover, Hpaused. cbn [orb].
    unfold bind, lift. rewrite Hrot, Hvalid. destruct valid; [|reflexivity].
    unfold setGameState, withPiece. cbn [state timeouts].
    now rewrite Hover, Hpaused.
Qed.

Lemma moves_spec_witness :
  let gs := initialState TypeT TypeO in
  let left := mkPosition (row (currentPosition gs)) (col (currentPosition gs) - 1) in
  let right := mkPosition (row (currentPosition gs)) (col (currentPosition gs) + 1) in
  (exists valid,
      isValidMove (board gs) (currentPiece gs) left = Ok valid /\
      handle CallMoveLeft (initialWorld TypeT TypeO)
      = (if valid
         then mkWorld
                (mkGameState (board gs) (currentPiece gs) left (nextPiece gs)
                   (score gs) false false) []
         else initialWorld TypeT TypeO,
         Ok tt)) /\
  (exists valid,
      isValidMove (board gs) (currentPiece gs) right = Ok valid /\
      handle CallMoveRight (initialWorld TypeT TypeO)
      = (if valid
         then mkWorld
                (mkGameState (board gs) (currentPiece gs) right (nextPiece gs)
                   (score gs) false false) []
         else initialWorld TypeT TypeO,
         Ok tt)) /\
  (exists rotatedPiece valid,
      rotatePiece (currentPiece gs) = Ok rotatedPiece /\
      isValidMove (board gs) rotatedPiece (currentPosition gs) = Ok valid /\
      handle CallRotate (initialWorld TypeT TypeO)
      = (if valid
         then mkWorld
                (mkGameState (board gs) rotatedPiece (currentPosition gs)
                   (nextPiece gs) (score gs) false false) []
         else initialWorld TypeT TypeO,
         Ok tt)).
Proof.
  apply (moves_spec (initialWorld TypeT TypeO) 3%nat);
    [reflexivity|reflexivity|simpl; lia|lia|].
  split; [reflexivity|]. repeat constructor.
Defined.

(** The arrow keys reach the same commands. *)
Lemma arrow_keys (w : World) (randomType : TetrominoType) :
  isPaused (state w) = false ->
  handle (KeyDown "ArrowLeft" randomType) w = handle CallMoveLeft w /\
  handle (KeyDown "ArrowRight" randomType) w = handle CallMoveRight w /\
  handle (KeyDown "ArrowUp" randomType) w = handle CallRotate w /\
  handle (KeyDown "ArrowDown" randomType) w = handle (CallMoveDown randomType) w /\
  handle (KeyDown " " randomType) w = handle (CallHardDrop randomType) w.
Proof.
  intros Hpaused. unfold handle, handleKeyPress. rewrite Hpaused.
  repeat split; reflexivity.
Qed.

(** C10.  Whatever the state, and whether they return or raise,
    [moveLeft], [moveRight] and [rotate] leave [board], [nextPiece],
    [score], [isGameOver] and [isPaused] as they were and schedule
    nothing; [moveLeft] and [moveRight] also leave [currentPiece], and
    [rotate] also leaves [currentPosition]. *)
Theorem moves_frame (gameState : GameState) (w : World) :
  (sameFrame (state w) (state (fst (moveLeft gameState w))) /\
   currentPiece (state (fst (moveLeft gameState w))) = currentPiece (state w) /\
   timeouts (fst (moveLeft gameState w)) = timeouts w) /\
  (sameFrame (state w) (state (fst (moveRight gameState w))) /\
   currentPiece (state (fst (moveRight gameState w))) = currentPiece (state w) /\
   timeouts (fst (moveRight gameState w)) = timeouts w) /\
  (sameFrame (state w) (state (fst (rotate gameState w))) /\
   currentPosition (state (fst (rotate gameState w)))
   = currentPosition (state w) /\
   timeouts (fst (rotate gameState w)) = timeouts w).
Proof.
  unfold sameFrame, moveLeft, moveRight, rotate.
  destruct (isGameOver gameState || isPaused gameState).
  - cbn. tauto.
  - unfold bind, lift.
    repeat split;
      repeat match goal with
             | |- context [match ?o with Ok _ => _ | Stop _ => _ end] =>
                 destruct o
             | |- context [if ?v then _ else _] => destruct v
             end; reflexivity.
Qed.

(** C4, as the code has it.  The Enter key flips [isPaused] whatever the
    flags are, [isGameOver] included, and changes nothing else: the
    state after the key is never the state before it, and a second Enter
    brings the first state back. *)
Theorem togglePause_flips (w : World) (randomType : TetrominoType) :
  handle (KeyDown "Enter" randomType) w
  = (mkWorld
       (mkGameState (board (state w)) (currentPiece (state w))
          (currentPosition (state w)) (nextPiece (state w)) (score (state w))
          (isGameOver (state w)) (negb (isPaused (state w))))
       (timeouts w),
     Ok tt) /\
  state (fst (handle (KeyDown "Enter" randomType) w)) <> state w /\
  fst (handle (KeyDown "Enter" randomType)
         (fst (handle (KeyDown "Enter" randomType) w))) = w.
Proof.
  destruct w as [gs ts]. split; [reflexivity|]. split.
  - cbn [handle handleKeyPress String.eqb Ascii.eqb Bool.eqb andb fst state
         setGameState timeouts].
    intros Hsame. apply (f_equal isPaused) in Hsame.
    cbn [withPaused isPaused] in Hsame.
    now destruct (isPaused gs).
  - destruct gs as [b piece pos next sc over paused].
    cbn. now rewrite negb_involutive.
Qed.

(** C4 fails as stated: in a reachable state with [isGameOver] set the
    Enter key sets [isPaused]. *)
Lemma togglePause_gameOver_counterexample :
  exists w,
    runEvents stackedEvents (initialWorld TypeO TypeO) = Some w /\
    isGameOver (state w) = true /\
    isPaused (state w) = false /\
    isPaused (state (fst (handle (KeyDown "Enter" TypeO) w))) = true.
Proof.
  eexists. split; [vm_compute; reflexivity|]. repeat split.
Qed.

(** C3, as the code has it.  [resetGame] replaces the state and leaves
    every scheduled callback scheduled.  When the oldest then fires it
    overwrites [board], [currentPiece], [currentPosition], [nextPiece],
    [score] and [isGameOver] of the fresh state with the values of the
    landing that scheduled it; of the fresh state only [isPaused]
    stays. *)
Theorem reset_keeps_timeout (w : World) (t : Timeout) (rest : list Timeout)
  (first second drawn : TetrominoType) :
  timeouts w = t :: rest ->
  (Z.to_nat BOARD_HEIGHT <= length (capturedBoard t))%nat ->
  handle (CallResetGame first second) w
  = (mkWorld (initialState first second) (t :: rest), Ok tt) /\
  exists spawnValid,
    isValidMove (capturedBoard t) (nextPiece (capturedState t)) (mkPosition 0 4)
    = Ok spawnValid /\
    handle (TimeoutFires drawn) (mkWorld (initialState first second) (t :: rest))
    = (mkWorld
         (mkGameState (capturedBoard t) (nextPiece (capturedState t))
            (mkPosition 0 4) (TETROMINOES drawn)
            (score (capturedState t) + capturedLines t * 100)
            (negb spawnValid) false)
         rest,
       Ok tt).
Proof.
  intros Hts Hlen. split.
  - cbn [handle]. unfold resetGame, setGameState. now rewrite Hts.
  - destruct (isValidMove_total (capturedBoard t) (nextPiece (capturedState t))
                (mkPosition 0 4) Hlen) as [spawnValid Hspawn].
    exists spawnValid. split; [assumption|].
    cbn [handle timeouts state]. unfold phaseTwo, bind, lift.
    change spawnPosition with (mkPosition 0 4). rewrite Hspawn. reflexivity.
Qed.

Lemma reset_keeps_timeout_witness :
  let t := mkTimeout 800 landingState (newBoard landingCleared) 1 in
  handle (CallResetGame TypeJ TypeL) (mkWorld landingState [t])
  = (mkWorld (initialState TypeJ TypeL) [t], Ok tt) /\
  exists spawnValid,
    isValidMove (capturedBoard t) (nextPiece (capturedState t)) (mkPosition 0 4)
    = Ok spawnValid /\
    handle (TimeoutFires TypeS) (mkWorld (initialState TypeJ TypeL) [t])
    = (mkWorld
         (mkGameState (capturedBoard t) (nextPiece (capturedState t))
            (mkPosition 0 4) (TETROMINOES TypeS)
            (score (capturedState t) + capturedLines t * 100)
            (negb spawnValid) false)
         [],
       Ok tt).
Proof.
  apply (reset_keeps_timeout
           (mkWorld landingState
              [mkTimeout 800 landingState (newBoard landingCleared) 1])
           (mkTimeout 800 landingState (newBoard landingCleared) 1) []
           TypeJ TypeL TypeS);
    [reflexivity|simpl; lia].
Defined.

(** C3 fails as stated: a reset in the line-clear window cancels
    nothing.  The callback is still scheduled after the reset, and when
    it fires the board of the reset is replaced by the cleared board of
    the old game, the score by 100 and the J piece of the reset by the
    T piece that was next in the old game. *)
Lemma reset_stale_timeout_counterexample :
  exists w afterReset afterFire,
    runEvents clearingEvents (initialWorld TypeI TypeI) = Some w /\
    length (timeouts w) = 1%nat /\
    runEvents [CallResetGame TypeJ TypeL] w = Some afterReset /\
    state afterReset = initialState TypeJ TypeL /\
    length (timeouts afterReset) = 1%nat /\
    runEvents [TimeoutFires TypeS] afterReset = Some afterFire /\
    board (state afterFire) <> board (state afterReset) /\
    score (state afterFire) = 100 /\
    type (currentPiece (state afterFire)) = TypeT /\
    type (currentPiece (state afterReset)) = TypeJ.
Proof.
  eexists. eexists. eexists.
  split; [vm_compute; reflexivity|]. split; [reflexivity|].
  split; [vm_compute; reflexivity|]. split; [reflexivity|].
  split; [reflexivity|].
  split; [vm_compute; reflexivity|].
  split; [|repeat split]. vm_compute. discriminate.
Qed.

(** ** [hardDrop] *)

Lemma handle_hardDrop (w : World) (randomType : TetrominoType) :
  (Z.to_nat BOARD_HEIGHT <= length (board (state w)))%nat ->
  (exists r c, filledIn (shape (currentPiece (state w))) r c) ->
  handle (CallHardDrop randomType) w = handle (CallMoveDown randomType) w.
Proof.
  destruct w as [gs ts]. cbn [state handle]. intros Hlen Hfilled.
  destruct (dropLoop_ends (board gs) (currentPiece gs) Hlen Hfilled
              (Z.to_nat (BOARD_HEIGHT - row (currentPosition gs)))
              (currentPosition gs)) as [pos' Hloop]; [lia|].
  now apply hardDrop_as_moveDown with (pos' := pos').
Qed.

(** C1, what the code does instead.  With both flags false and the row
    below the piece free, [hardDrop] moves the piece down by one row and
    nothing else happens: no merge, no line clear, no new piece. *)
Theorem hardDrop_moves_one_row (w : World) (randomType : TetrominoType) :
  isGameOver (state w) = false -> isPaused (state w) = false ->
  boardOk (board (state w)) -> pieceOk (currentPiece (state w)) ->
  isValidMove (board (state w)) (currentPiece (state w))
    (mkPosition (row (currentPosition (state w)) + 1)
       (col (currentPosition (state w)))) = Ok true ->
  handle (CallHardDrop randomType) w
  = (mkWorld
       (mkGameState (board (state w)) (currentPiece (state w))
          (mkPosition (row (currentPosition (state w)) + 1)
             (col (currentPosition (state w))))
          (nextPiece (state w)) (score (state w)) false false)
       (timeouts w),
     Ok tt).
Proof.
  intros Hover Hpaused Hb (N & _ & _ & Hfilled) Hvalid.
  rewrite handle_hardDrop; [|destruct Hb as [-> _]; lia|assumption].
  destruct w as [gs ts]. cbn [state timeouts handle] in *.
  unfold moveDown. rewrite Hover, Hpaused. cbn [orb].
  unfold bind, lift. rewrite Hvalid. unfold setGameState, withPosition.
  cbn [state timeouts]. now rewrite Hover, Hpaused.
Qed.

Lemma hardDrop_moves_one_row_witness :
  handle (CallHardDrop TypeT) (initialWorld TypeO TypeI)
  = (mkWorld
       (mkGameState createEmptyBoard (TETROMINOES TypeO) (mkPosition (0 + 1) 4)
          (TETROMINOES TypeI) 0 false false)
       [],
     Ok tt).
Proof.
  apply (hardDrop_moves_one_row (initialWorld TypeO TypeI) TypeT);
    [reflexivity|reflexivity|exact boardOk_createEmptyBoard
    |exact (catalog_pieceOk TypeO)|reflexivity].
Defined.

(** On the empty board eighteen calls of [moveDown] bring the O piece
    to row 18 and the nineteenth settles it there, which is what the
    specification asks of [hardDrop]; [hardDrop] brings it to row 1 and
    settles nothing. *)
Example hardDrop_falls_short :
  runEvents (repeat (CallMoveDown TypeT) 18) (initialWorld TypeO TypeI)
  = Some (mkWorld
            (mkGameState createEmptyBoard (TETROMINOES TypeO) (mkPosition 18 4)
               (TETROMINOES TypeI) 0 false false) []) /\
  runEvents (repeat (CallMoveDown TypeT) 19) (initialWorld TypeO TypeI)
  = Some (mkWorld
            (mkGameState restingO (TETROMINOES TypeI) (mkPosition 0 4)
               (TETROMINOES TypeT) 0 false false) []) /\
  moveDownUntilLanded 19 TypeT (initialWorld TypeO TypeI)
  = Some (mkWorld
            (mkGameState restingO (TETROMINOES TypeI) (mkPosition 0 4)
               (TETROMINOES TypeT) 0 false false) []) /\
  runEvents [CallHardDrop TypeT] (initialWorld TypeO TypeI)
  = Some (mkWorld
            (mkGameState createEmptyBoard (TETROMINOES TypeO) (mkPosition 1 4)
               (TETROMINOES TypeI) 0 false false) []).
Proof.
  repeat split; vm_compute; reflexivity.
Qed.

(** ** What every reachable session satisfies *)

Lemma boardOk_height (b : Board) :
  boardOk b -> (Z.to_nat BOARD_HEIGHT <= length b)%nat.
Proof.
  intros [-> _]. lia.
Qed.

Lemma spawn_valid (key : TetrominoType) :
  isValidMove createEmptyBoard (TETROMINOES key) spawnPosition = Ok true.
Proof.
  destruct key; reflexivity.
Qed.

Lemma spawn_inBounds (key : TetrominoType) :
  inBounds (TETROMINOES key) spawnPosition.
Proof.
  apply (isValidMove_fits_weak createEmptyBoard), spawn_valid.
Qed.

Lemma initial_ok (first second : TetrominoType) :
  sessionOk (initialWorld first second).
Proof.
  constructor; cbn.
  - exact boardOk_createEmptyBoard.
  - apply catalog_pieceOk.
  - now exists second.
  - apply spawn_inBounds.
  - constructor.
  - intros _ _. apply (isValidMove_fits_weak createEmptyBoard), spawn_valid.
Qed.

(** A move that [isValidMove] accepted. *)
Lemma moved_ok (gs : GameState) (ts : list Timeout) (piece : Tetromino)
  (pos : Position) :
  sessionOk (mkWorld gs ts) -> pieceOk piece ->
  isValidMove (board gs) piece pos = Ok true ->
  sessionOk
    (mkWorld
       (mkGameState (board gs) piece pos (nextPiece gs) (score gs)
          (isGameOver gs) (isPaused gs)) ts).
Proof.
  intros [Hb Hp Hn Hbd Ht Ho] Hpiece Hvalid. cbn in *.
  apply isValidMove_fits_weak in Hvalid. destruct Hvalid as [Hin Hno].
  constructor; cbn; auto.
Qed.

(** The state a settle publishes. *)
Lemma settled_ok (b : Board) (key drawn : TetrominoType) (newScore : Z)
  (spawnValid paused : bool) (ts : list Timeout) :
  boardOk b -> Forall timeoutOk ts ->
  isValidMove b (TETROMINOES key) spawnPosition = Ok spawnValid ->
  sessionOk
    (mkWorld
       (mkGameState b (TETROMINOES key) spawnPosition (TETROMINOES drawn)
          newScore (negb spawnValid) paused) ts).
Proof.
  intros Hb Hts Hvalid. constructor; fields.
  - assumption.
  - apply catalog_pieceOk.
  - now exists drawn.
  - apply spawn_inBounds.
  - assumption.
  - intros Hover _. apply negb_false_iff in Hover. subst spawnValid.
    apply (isValidMove_fits_weak _ _ _ Hvalid).
Qed.

Lemma moveDown_ok (gs : GameState) (randomType : TetrominoType)
  (ts : list Timeout) :
  sessionOk (mkWorld gs ts) ->
  exists w', moveDown gs randomType (mkWorld gs ts) = (w', Ok tt) /\ sessionOk w'.
Proof.
  intros Hok. pose proof Hok as [Hb Hp [key Hn] Hbd Ht Ho]. cbn in *.
  unfold moveDown. destruct (isGameOver gs || isPaused gs); [now eexists|].
  destruct (isValidMove_total (board gs) (currentPiece gs)
              (mkPosition (row (currentPosition gs) + 1)
                 (col (currentPosition gs))) (boardOk_height _ Hb))
    as [valid Hvalid].
  unfold bind at 1. unfold lift at 1. rewrite Hvalid. destruct valid.
  - eexists. split; [reflexivity|]. now apply moved_ok.
  - destruct (mergePieceWithBoard_boardOk (board gs) (currentPiece gs)
                (currentPosition gs) Hb) as (merged & Hmerged & Hmb).
    unfold bind at 1. unfold lift at 1. rewrite Hmerged.
    destruct (clearLines merged) as [cl|e] eqn:Hcl;
      [|rewrite (clearLines_Ok merged (proj1 Hmb)) in Hcl; discriminate].
    pose proof (clearLines_boardOk merged cl Hmb Hcl) as Hclb.
    unfold bind at 1. unfold lift at 1.
    destruct (0 <? length (clearedRows cl))%nat.
    + eexists. split; [reflexivity|]. constructor; fields.
      * assumption.
      * assumption.
      * now exists key.
      * assumption.
      * apply Forall_app. split; [assumption|]. constructor; [|constructor].
        split; fields; [assumption|now exists key].
      * intros _ Habs. now apply app_eq_nil in Habs as [_ Habs].
    + rewrite Hn.
      destruct (isValidMove_total (newBoard cl) (TETROMINOES key) spawnPosition
                  (boardOk_height _ Hclb)) as [spawnValid Hspawn].
      unfold bind, lift. rewrite Hspawn. eexists. split; [reflexivity|].
      now apply settled_ok.
Qed.

Lemma moveLeft_ok (gs : GameState) (ts : list Timeout) :
  sessionOk (mkWorld gs ts) ->
  exists w', moveLeft gs (mkWorld gs ts) = (w', Ok tt) /\ sessionOk w'.
Proof.
  intros Hok. pose proof Hok as [Hb Hp _ _ _ _]. cbn in *.
  unfold moveLeft. destruct (isGameOver gs || isPaused gs); [now eexists|].
  destruct (isValidMove_total (board gs) (currentPiece gs)
              (mkPosition (row (currentPosition gs))
                 (col (currentPosition gs) - 1)) (boardOk_height _ Hb))
    as [valid Hvalid].
  unfold bind, lift. rewrite Hvalid. destruct valid; [|now eexists].
  eexists. split; [reflexivity|]. now apply moved_ok.
Qed.

Lemma moveRight_ok (gs : GameState) (ts : list Timeout) :
  sessionOk (mkWorld gs ts) ->
  exists w', moveRight gs (mkWorld gs ts) = (w', Ok tt) /\ sessionOk w'.
Proof.
  intros Hok. pose proof Hok as [Hb Hp _ _ _ _]. cbn in *.
  unfold moveRight. destruct (isGameOver gs || isPaused gs); [now eexists|].
  destruct (isValidMove_total (board gs) (currentPiece gs)
              (mkPosition (row (currentPosition gs))
                 (col (currentPosition gs) + 1)) (boardOk_height _ Hb))
    as [valid Hvalid].
  unfold bind, lift. rewrite Hvalid. destruct valid; [|now eexists].
  eexists. split; [reflexivity|]. now apply moved_ok.
Qed.

Lemma rotate_ok (gs : GameState) (ts : list Timeout) :
  sessionOk (mkWorld gs ts) ->
  exists w', rotate gs (mkWorld gs ts) = (w', Ok tt) /\ sessionOk w'.
Proof.
  intros Hok. pose proof Hok as [Hb Hp _ _ _ _]. cbn in *.
  unfold rotate. destruct (isGameOver gs || isPaused gs); [now eexists|].
  destruct (rotatePiece_pieceOk (currentPiece gs) Hp) as (rotated & Hrot & Hrp).
  destruct (isValidMove_total (board gs) rotated (currentPosition gs)
              (boardOk_height _ Hb)) as [valid Hvalid].
  unfold bind, lift. rewrite Hrot, Hvalid. destruct valid; [|now eexists].
  eexists. split; [reflexivity|]. now apply moved_ok.
Qed.

Lemma togglePause_ok (gs : GameState) (ts : list Timeout) :
  sessionOk (mkWorld gs ts) ->
  sessionOk (mkWorld (withPaused (negb (isPaused gs)) gs) ts).
Proof.
  intros [Hb Hp Hn Hbd Ht Ho]. now constructor.
Qed.

Lemma phaseTwo_ok (t : Timeout) (randomType : TetrominoType) (gs : GameState)
  (ts : list Timeout) :
  timeoutOk t -> Forall timeoutOk ts ->
  exists w', phaseTwo t randomType (mkWorld gs ts) = (w', Ok tt) /\ sessionOk w'.
Proof.
  intros [Hb [key Hkey]] Hts. unfold phaseTwo. rewrite Hkey.
  destruct (isValidMove_total (capturedBoard t) (TETROMINOES key) spawnPosition
              (boardOk_height _ Hb)) as [spawnValid Hspawn].
  unfold bind, lift. rewrite Hspawn. eexists. split; [reflexivity|].
  now apply settled_ok.
Qed.

(** In a session that is in order every event is handled to its end,
    without an exception, and leaves the session in order. *)
Lemma handle_ok (ev : Event) (w : World) :
  sessionOk w -> exists w', handle ev w = (w', Ok tt) /\ sessionOk w'.
Proof.
  intros Hok.
  assert (Hdrop : forall randomType,
             handle (CallHardDrop randomType) w
             = handle (CallMoveDown randomType) w).
  { intros randomType. apply handle_hardDrop.
    - apply boardOk_height, Hok.
    - destruct (ok_piece w Hok) as (N & _ & _ & Hfilled). exact Hfilled. }
  destruct w as [gs ts]. destruct ev as [key r|r| | |r| |r|first second|r].
  - cbn [handle state]. unfold handleKeyPress.
    destruct (String.eqb key "Enter").
    { eexists. split; [reflexivity|]. now apply togglePause_ok. }
    destruct (isPaused gs); [now eexists|].
    destruct (String.eqb key "ArrowLeft"); [now apply moveLeft_ok|].
    destruct (String.eqb key "ArrowRight"); [now apply moveRight_ok|].
    destruct (String.eqb key "ArrowDown"); [now apply moveDown_ok|].
    destruct (String.eqb key "ArrowUp"); [now apply rotate_ok|].
    destruct (String.eqb key " "); [|now eexists].
    change (hardDrop (dropFuel gs) gs r (mkWorld gs ts))
      with (handle (CallHardDrop r) (mkWorld gs ts)).
    rewrite Hdrop. now apply moveDown_ok.
  - cbn [handle state]. unfold gameLoop.
    destruct (negb (isGameOver gs) && negb (isPaused gs));
      [now apply moveDown_ok|now eexists].
  - now apply moveLeft_ok.
  - now apply moveRight_ok.
  - now apply moveDown_ok.
  - now apply rotate_ok.
  - rewrite Hdrop. now apply moveDown_ok.
  - eexists. split; [reflexivity|].
    destruct (initial_ok first second) as [Hb Hp Hn Hbd _ Ho].
    constructor; cbn in *; auto. apply Hok.
  - cbn [handle timeouts state]. destruct ts as [|t rest]; [now eexists|].
    pose proof (ok_timeouts _ Hok) as Hts. cbn in Hts.
    apply phaseTwo_ok; now inversion Hts.
Qed.

Lemma runEvents_ok (evs : list Event) :
  forall w, sessionOk w ->
            exists w', runEvents evs w = Some w' /\ sessionOk w'.
Proof.
  induction evs as [|ev rest IH]; intros w Hok; cbn [runEvents].
  - now exists w.
  - destruct (handle_ok ev w Hok) as (w1 & Hw1 & Hok1).
    unfold step. rewrite Hw1. now apply IH.
Qed.

Lemma reachable_ok (w : World) : reachable w -> sessionOk w.
Proof.
  intros (first & second & evs & Hrun).
  destruct (runEvents_ok evs _ (initial_ok first second)) as (w' & Hw' & Hok).
  congruence.
Qed.

(** C2 fails as stated, in both of the states it names.  After the
    landing that fills the bottom row the O piece is still at row 18,
    column 8, on the cells it was just merged into; and after the tenth
    O piece has landed at the top of the spawn column the eleventh is
    placed on it with [isGameOver] set. *)
Lemma placement_counterexample :
  (exists w,
      runEvents clearingEvents (initialWorld TypeI TypeI) = Some w /\
      isGameOver (state w) = false /\
      ~ noOverlap (board (state w)) (currentPiece (state w))
          (currentPosition (state w))) /\
  (exists w,
      runEvents stackedEvents (initialWorld TypeO TypeO) = Some w /\
      isGameOver (state w) = true /\
      ~ noOverlap (board (state w)) (currentPiece (state w))
          (currentPosition (state w))).
Proof.
  split; eexists; (split; [vm_compute; reflexivity|]);
    (split; [reflexivity|]); intros Hno; apply (Hno 0%nat 0%nat).
  - exists [1; 1], 1. repeat split. discriminate.
  - eexists. exists 1. split; [vm_compute; reflexivity|].
    split; [reflexivity|discriminate].
  - exists [1; 1], 1. repeat split. discriminate.
  - eexists. exists 1. split; [vm_compute; reflexivity|].
    split; [reflexivity|discriminate].
Qed.

(** ** More on [isValidMove] *)

(** X1.  On a board of at least BOARD_HEIGHT rows [isValidMove] returns
    without an exception, and it returns [true] exactly when every
    filled cell of the piece lies on the board and on no filled cell of
    it. *)
Theorem isValidMove_decides (b : Board) (piece : Tetromino) (pos : Position) :
  (Z.to_nat BOARD_HEIGHT <= length b)%nat ->
  exists v, isValidMove b piece pos = Ok v /\
            (v = true <-> pieceFits b piece pos).
Proof.
  intros Hlen. destruct (isValidMove_total b piece pos Hlen) as [v Hv].
  exists v. split; [assumption|].
  rewrite <- (isValidMove_fits b piece pos Hlen), Hv.
  split; [now intros ->|congruence].
Qed.

Lemma isValidMove_decides_witness :
  exists v,
    isValidMove createEmptyBoard (TETROMINOES TypeT) (mkPosition 0 8) = Ok v /\
    (v = true <->
     pieceFits createEmptyBoard (TETROMINOES TypeT) (mkPosition 0 8)).
Proof.
  apply (isValidMove_decides createEmptyBoard (TETROMINOES TypeT)
           (mkPosition 0 8)).
  simpl. lia.
Defined.

Lemma cellAdmits_Stop (b : Board) (pos : Position) (r c cell : Z)
  (e : Failure) :
  cellAdmits b pos r c cell = Stop e ->
  e = TypeError /\ cell <> 0 /\
  0 <= row pos + r < BOARD_HEIGHT /\ 0 <= col pos + c < BOARD_WIDTH /\
  (length b <= Z.to_nat (row pos + r))%nat.
Proof.
  unfold cellAdmits. destruct (truthy cell) eqn:Hcell; [|discriminate].
  apply truthy_true in Hcell.
  destruct ((row pos + r <? 0) || (row pos + r >=? BOARD_HEIGHT)
            || (col pos + c <? 0) || (col pos + c >=? BOARD_WIDTH)) eqn:Hb;
    [discriminate|].
  rewrite !orb_false_iff in Hb. destruct Hb as [[[H1 H2] H3] H4].
  destruct (nth_error b (Z.to_nat (row pos + r))) as [cells|] eqn:Hrow.
  - destruct (nth_error cells (Z.to_nat (col pos + c))); discriminate.
  - intros H. injection H as <-. apply nth_error_None in Hrow.
    repeat split; try assumption; lia.
Qed.

Lemma validCols_Stop (b : Board) (pos : Position) (r : Z) (cells : list Z)
  (e : Failure) :
  forall c0,
    validCols b pos r c0 cells = Stop e ->
    e = TypeError /\
    exists j cell, nth_error cells j = Some cell /\ cell <> 0 /\
      0 <= row pos + r < BOARD_HEIGHT /\
      0 <= col pos + (c0 + Z.of_nat j) < BOARD_WIDTH /\
      (length b <= Z.to_nat (row pos + r))%nat.
Proof.
  induction cells as [|cell rest IH]; intros c0; simpl; [discriminate|].
  destruct (cellAdmits b pos r c0 cell) as [[|]|e'] eqn:Hcell.
  - intros H. destruct (IH _ H) as (He & j & x & Hj & Hne & Hr & Hc & Hlen).
    split; [assumption|]. exists (S j), x.
    replace (c0 + Z.of_nat (S j)) with (c0 + 1 + Z.of_nat j) by lia.
    auto.
  - discriminate.
  - intros H. injection H as <-.
    destruct (cellAdmits_Stop b pos r c0 cell e' Hcell)
      as (He & Hne & Hr & Hc & Hlen).
    split; [assumption|]. exists 0%nat, cell.
    replace (c0 + Z.of_nat 0) with c0 by lia. auto.
Qed.

Lemma validRows_Stop (b : Board) (pos : Position) (rows : list (list Z))
  (e : Failure) :
  forall r0,
    validRows b pos r0 rows = Stop e ->
    e = TypeError /\
    exists i j, filledIn rows i j /\
      0 <= row pos + (r0 + Z.of_nat i) < BOARD_HEIGHT /\
      0 <= col pos + Z.of_nat j < BOARD_WIDTH /\
      (length b <= Z.to_nat (row pos + (r0 + Z.of_nat i)))%nat.
Proof.
  induction rows as [|cells rest IH]; intros r0; simpl; [discriminate|].
  destruct (validCols b pos r0 0 cells) as [[|]|e'] eqn:Hcols.
  - intros H. destruct (IH _ H) as (He & i & j & Hf & Hr & Hc & Hlen).
    split; [assumption|]. exists (S i), j.
    replace (r0 + Z.of_nat (S i)) with (r0 + 1 + Z.of_nat i) by lia.
    split; [|repeat split; assumption || lia].
    destruct Hf as (cs & x & Hi & Hj & Hne). now exists cs, x.
  - discriminate.
  - intros H. injection H as <-.
    destruct (validCols_Stop b pos r0 cells e' 0 Hcols)
      as (He & j & x & Hj & Hne & Hr & Hc & Hlen).
    split; [assumption|]. exists 0%nat, j.
    replace (r0 + Z.of_nat 0) with r0 by lia.
    replace (0 + Z.of_nat j) with (Z.of_nat j) in Hc by lia.
    split; [now exists cells, x|repeat split; assumption || lia].
Qed.

(** X2.  The only exception [isValidMove] raises is the TypeError of
    reading a cell of a row the board does not have: it needs a filled
    shape cell that falls inside the constant bounds and on a row index
    at or past the length of the board. *)
Theorem isValidMove_failure (b : Board) (piece : Tetromino) (pos : Position)
  (e : Failure) :
  isValidMove b piece pos = Stop e ->
  e = TypeError /\
  exists r c, filledIn (shape piece) r c /\
    0 <= row pos + Z.of_nat r < BOARD_HEIGHT /\
    0 <= col pos + Z.of_nat c < BOARD_WIDTH /\
    (length b <= Z.to_nat (row pos + Z.of_nat r))%nat.
Proof.
  intros H. destruct (validRows_Stop b pos (shape piece) e 0 H)
    as (He & i & j & Hf & Hr & Hc & Hlen).
  split; [assumption|]. exists i, j.
  replace (0 + Z.of_nat i) with (Z.of_nat i) in * by lia. auto.
Qed.

Lemma isValidMove_failure_witness :
  TypeError = TypeError /\
  exists r c, filledIn (shape (TETROMINOES TypeO)) r c /\
    0 <= row (mkPosition 0 0) + Z.of_nat r < BOARD_HEIGHT /\
    0 <= col (mkPosition 0 0) + Z.of_nat c < BOARD_WIDTH /\
    (length (@nil (list Z)) <= Z.to_nat (row (mkPosition 0 0) + Z.of_nat r))%nat.
Proof.
  apply (isValidMove_failure [] (TETROMINOES TypeO) (mkPosition 0 0) TypeError).
  reflexivity.
Defined.

(** ** More on the loop of [hardDrop] *)

(** X3.  With both flags false [hardDrop] on a piece without a filled
    cell never leaves its loop, whatever the board; with a filled cell
    and a board of at least BOARD_HEIGHT rows the loop returns within
    [BOARD_HEIGHT - row + 1] tests. *)
Theorem hardDrop_loop_termination (gs : GameState) :
  isGameOver gs = false -> isPaused gs = false ->
  ((forall r c, ~ filledIn (shape (currentPiece gs)) r c) ->
   forall fuel randomType w,
     hardDrop fuel gs randomType w = (w, Stop OutOfFuel)) /\
  ((exists r c, filledIn (shape (currentPiece gs)) r c) ->
   (Z.to_nat BOARD_HEIGHT <= length (board gs))%nat ->
   exists pos',
     dropLoop (S (Z.to_nat (BOARD_HEIGHT - row (currentPosition gs))))
       (board gs) (currentPiece gs) (currentPosition gs) = Ok pos').
Proof.
  intros Hover Hpaused. split.
  - intros Hnone fuel randomType w. unfold hardDrop.
    rewrite Hover, Hpaused. cbn [orb]. unfold bind, lift.
    now rewrite (dropLoop_diverges (board gs) (currentPiece gs) Hnone).
  - intros Hfilled Hlen.
    apply (dropLoop_ends (board gs) (currentPiece gs) Hlen Hfilled). lia.
Qed.

Lemma hardDrop_loop_termination_witness :
  (forall fuel randomType w,
      hardDrop fuel
        (mkGameState createEmptyBoard (mkTetromino [[0; 0]; [0; 0]] TypeO "")
           (mkPosition 0 4) (TETROMINOES TypeI) 0 false false)
        randomType w
      = (w, Stop OutOfFuel)) /\
  exists pos',
    dropLoop (S (Z.to_nat (BOARD_HEIGHT - 0))) createEmptyBoard
      (TETROMINOES TypeO) (mkPosition 0 4) = Ok pos'.
Proof.
  split.
  - apply (proj1 (hardDrop_loop_termination
                    (mkGameState createEmptyBoard
                       (mkTetromino [[0; 0]; [0; 0]] TypeO "")
                       (mkPosition 0 4) (TETROMINOES TypeI) 0 false false)
                    eq_refl eq_refl)).
    intros r c Hfilled. apply filledIn_cellAt in Hfilled.
    destruct Hfilled as (cell & Hcell & Hne).
    unfold cellAt in Hcell. cbn [shape currentPiece] in Hcell.
    destruct r as [|[|r]]; simpl in Hcell;
      [| |destruct r; discriminate];
      (destruct c as [|[|c]]; simpl in Hcell;
       [| |destruct c; discriminate]); injection Hcell as <-; now apply Hne.
  - apply (proj2 (hardDrop_loop_termination (initialState TypeO TypeI)
                    eq_refl eq_refl)).
    + exists 0%nat, 0%nat, [1; 1], 1. repeat split. discriminate.
    + simpl. lia.
Defined.

(** X4.  When the loop of [hardDrop] returns, it returns the lowest
    position the piece can fall to in its column: the column is the
    same, every row passed on the way is valid, and the row below the
    result is not. *)
Theorem dropLoop_lowest (fuel : nat) (b : Board) (piece : Tetromino) :
  forall pos pos',
    dropLoop fuel b piece pos = Ok pos' ->
    col pos' = col pos /\ row pos <= row pos' /\
    isValidMove b piece (mkPosition (row pos' + 1) (col pos)) = Ok false /\
    forall k, row pos < k <= row pos' ->
              isValidMove b piece (mkPosition k (col pos)) = Ok true.
Proof.
  induction fuel as [|fuel IH]; intros pos pos'; simpl; [discriminate|].
  destruct (isValidMove b piece (mkPosition (row pos + 1) (col pos)))
    as [[|]|e] eqn:Hv; [|intros H; injection H as <-|discriminate].
  - intros H. destruct (IH _ _ H) as (Hcol & Hrow & Hlast & Hmid).
    cbn [row col] in *. repeat split; try assumption; try lia.
    intros k Hk. destruct (Z.eq_dec k (row pos + 1)) as [->|Hne];
      [assumption|]. apply Hmid. lia.
  - repeat split; try assumption; lia.
Qed.

Lemma dropLoop_lowest_witness :
  col (mkPosition 18 4) = col (mkPosition 0 4) /\
  row (mkPosition 0 4) <= row (mkPosition 18 4) /\
  isValidMove createEmptyBoard (TETROMINOES TypeO)
    (mkPosition (row (mkPosition 18 4) + 1) (col (mkPosition 0 4))) = Ok false /\
  forall k, row (mkPosition 0 4) < k <= row (mkPosition 18 4) ->
            isValidMove createEmptyBoard (TETROMINOES TypeO)
              (mkPosition k (col (mkPosition 0 4))) = Ok true.
Proof.
  apply (dropLoop_lowest 21 createEmptyBoard (TETROMINOES TypeO)
           (mkPosition 0 4) (mkPosition 18 4)).
  vm_compute. reflexivity.
Defined.

(** ** What [mergePieceWithBoard] writes *)

Lemma nth_error_update {A : Type} (n : nat) (x : A) (l : list A) (k : nat) :
  nth_error (update n x l) k
  = if (k =? n)%nat
    then match nth_error l n with Some _ => Some x | None => None end
    else nth_error l k.
Proof.
  revert n k. induction l as [|y rest IH]; intros [|n] [|k]; simpl;
    try reflexivity.
  - now destruct (k =? n)%nat.
  - apply IH.
Qed.

Lemma painted_same (S : nat -> nat -> Prop) (b : Board) :
  (forall R C, (R < Z.to_nat BOARD_HEIGHT)%nat ->
               (C < Z.to_nat BOARD_WIDTH)%nat -> ~ S R C) ->
  painted S b b.
Proof.
  intros Hnone R C HR HC. split; [|now left].
  intros HS. now destruct (Hnone R C HR HC).
Qed.

Lemma painted_then (S1 S2 : nat -> nat -> Prop) (b m1 m2 : Board) :
  painted S1 b m1 -> painted S2 m1 m2 ->
  painted (fun R C => S1 R C \/ S2 R C) b m2.
Proof.
  intros H1 H2 R C HR HC.
  destruct (H1 R C HR HC) as [H1s H1c]. destruct (H2 R C HR HC) as [H2s H2c].
  split.
  - intros [HS|HS]; [|auto].
    destruct H2c as [Heq|[_ Hone]]; [|assumption]. rewrite Heq. auto.
  - destruct H2c as [Heq|[HS Hone]]; [|right; auto].
    rewrite Heq. destruct H1c as [Heq1|[HS Hone]]; [now left|right; auto].
Qed.

Lemma painted_iff (S S' : nat -> nat -> Prop) (b m : Board) :
  (forall R C, S R C <-> S' R C) -> painted S b m -> painted S' b m.
Proof.
  intros Hiff H R C HR HC. destruct (H R C HR HC) as [Hs Hc]. split.
  - intros HS. apply Hs, Hiff, HS.
  - destruct Hc as [Heq|[HS Hone]]; [now left|right].
    split; [apply Hiff, HS|assumption].
Qed.

Lemma fillCell_painted (b m : Board) (R0 C0 : Z) :
  boardOk b -> 0 <= R0 < BOARD_HEIGHT -> 0 <= C0 < BOARD_WIDTH ->
  fillCell b R0 C0 = Ok m ->
  painted (fun R C => Z.of_nat R = R0 /\ Z.of_nat C = C0) b m.
Proof.
  intros [Hlen Hrows] HR0 HC0. unfold fillCell.
  destruct (nth_error b (Z.to_nat R0)) as [cells|] eqn:Hn;
    [|apply nth_error_None in Hn; lia].
  assert (Hw : length cells = Z.to_nat BOARD_WIDTH).
  { apply nth_error_In in Hn. rewrite Forall_forall in Hrows. auto. }
  assert (Hlt : (Z.to_nat C0 <? length cells)%nat = true).
  { apply Nat.ltb_lt. rewrite Hw. lia. }
  rewrite Hlt. intros H. injection H as <-. intros R C HR HC.
  unfold cellAt. rewrite nth_error_update, Hn.
  destruct (R =? Z.to_nat R0)%nat eqn:HeqR.
  - apply Nat.eqb_eq in HeqR. subst R. rewrite Hn, nth_error_update.
    destruct (C =? Z.to_nat C0)%nat eqn:HeqC.
    + apply Nat.eqb_eq in HeqC. subst C.
      destruct (nth_error cells (Z.to_nat C0)) eqn:Hc;
        [|apply nth_error_None in Hc; apply Nat.ltb_lt in Hlt; lia].
      split; [reflexivity|]. right. split; [lia|reflexivity].
    + apply Nat.eqb_neq in HeqC. split; [lia|now left].
  - apply Nat.eqb_neq in HeqR. split; [lia|now left].
Qed.

Section Painting.

Variable pos : Position.

Lemma mergeCell_painted (r c cell : Z) (b m : Board) :
  boardOk b -> mergeCell pos r c cell b = Ok m ->
  painted (fun R C => cell <> 0 /\ Z.of_nat R = row pos + r /\
                      Z.of_nat C = col pos + c) b m.
Proof.
  intros Hb. unfold mergeCell. destruct (truthy cell) eqn:Hcell.
  - apply truthy_true in Hcell.
    destruct ((row pos + r >=? 0) && (row pos + r <? BOARD_HEIGHT)
              && (col pos + c >=? 0) && (col pos + c <? BOARD_WIDTH)) eqn:Hin.
    + rewrite !andb_true_iff in Hin. intros Hfill.
      apply (painted_iff (fun R C => Z.of_nat R = row pos + r /\
                                     Z.of_nat C = col pos + c)); [tauto|].
      apply fillCell_painted; [assumption|lia|lia|assumption].
    + intros H. injection H as <-. apply painted_same.
      intros R C HR HC (_ & HeqR & HeqC).
      rewrite !andb_false_iff in Hin. unfold BOARD_HEIGHT, BOARD_WIDTH in *.
      lia.
  - apply truthy_false in Hcell. intros H. injection H as <-.
    apply painted_same. tauto.
Qed.

Lemma mergeCols_painted (r : Z) (cells : list Z) :
  forall c0 (b m : Board),
    boardOk b -> mergeCols pos r c0 cells b = Ok m ->
    painted (fun R C => exists j cell,
                 nth_error cells j = Some cell /\ cell <> 0 /\
                 Z.of_nat R = row pos + r /\
                 Z.of_nat C = col pos + (c0 + Z.of_nat j)) b m.
Proof.
  induction cells as [|cell rest IH]; intros c0 b m Hb; simpl.
  - intros H. injection H as <-. apply painted_same.
    intros R C _ _ ([|j] & x & Hj & _); discriminate.
  - destruct (mergeCell_boardOk pos r c0 cell b Hb) as (b1 & Hcell & Hb1).
    rewrite Hcell. simpl. intros Hrest.
    pose proof (painted_then _ _ _ _ _
                  (mergeCell_painted r c0 cell b b1 Hb Hcell)
                  (IH _ _ _ Hb1 Hrest)) as Hp.
    revert Hp. apply painted_iff. intros R C. split.
    + intros [(Hne & HR & HC)|(j & x & Hj & Hne & HR & HC)].
      * exists 0%nat, cell. repeat split; try assumption. lia.
      * exists (S j), x. repeat split; try assumption. lia.
    + intros ([|j] & x & Hj & Hne & HR & HC); simpl in Hj.
      * injection Hj as <-. left. repeat split; try assumption. lia.
      * right. exists j, x. repeat split; try assumption. lia.
Qed.

Lemma mergeRows_painted (rows : list (list Z)) :
  forall r0 (b m : Board),
    boardOk b -> mergeRows pos r0 rows b = Ok m ->
    painted (fun R C => exists i j,
                 filledIn rows i j /\
                 Z.of_nat R = row pos + (r0 + Z.of_nat i) /\
                 Z.of_nat C = col pos + Z.of_nat j) b m.
Proof.
  induction rows as [|cells rest IH]; intros r0 b m Hb; simpl.
  - intros H. injection H as <-. apply painted_same.
    intros R C _ _ ([|i] & j & (cs & x & Hi & _) & _); discriminate.
  - destruct (mergeCols_boardOk pos r0 cells 0 b Hb) as (b1 & Hcols & Hb1).
    rewrite Hcols. simpl. intros Hrest.
    pose proof (painted_then _ _ _ _ _
                  (mergeCols_painted r0 cells 0 b b1 Hb Hcols)
                  (IH _ _ _ Hb1 Hrest)) as Hp.
    revert Hp. apply painted_iff. intros R C. split.
    + intros [(j & x & Hj & Hne & HR & HC)
             |(i & j & (cs & x & Hi & Hj & Hne) & HR & HC)].
      * exists 0%nat, j. split; [now exists cells, x|]. split; lia.
      * exists (S i), j. split; [now exists cs, x|]. split; lia.
    + intros ([|i] & j & (cs & x & Hi & Hj & Hne) & HR & HC); simpl in Hi.
      * injection Hi as <-. left. exists j, x.
        repeat split; try assumption; lia.
      * right. exists i, j. split; [now exists cs, x|]. split; lia.
Qed.

End Painting.

Lemma mergePieceWithBoard_painted (b m : Board) (piece : Tetromino)
  (pos : Position) :
  boardOk b -> mergePieceWithBoard b piece pos = Ok m ->
  painted (covers piece pos) b m.
Proof.
  intros Hb Hm.
  pose proof (mergeRows_painted pos (shape piece) 0 b m Hb Hm) as Hp.
  revert Hp. apply painted_iff. intros R C. unfold covers.
  split; intros (r & c & Hf & HR & HC); exists r, c;
    (split; [assumption|split; lia]).
Qed.

(** C5.  With both flags false, on a board of BOARD_HEIGHT rows of
    BOARD_WIDTH cells: when the position one row down is valid,
    [moveDown] sets [currentPosition.row] to [row + 1] and changes nothing
    else; when it is not and the merge of the piece at its position has
    no full row, [moveDown] in one update sets [board] to that merge,
    [currentPiece] to the former [nextPiece], [nextPiece] to the piece
    drawn, [currentPosition] to row 0, column 4, leaves [score] as it
    was, and sets [isGameOver] to true exactly when the new current piece
    does not fit at the spawn position on the new board.  The merge is
    the board with 1 in every cell the piece covers at its position and
    the cell of the old board everywhere else; a position is valid when
    the piece fits there. *)
Theorem moveDown_spec (gs : GameState) (randomType : TetrominoType)
  (ts : list Timeout) :
  isGameOver gs = false -> isPaused gs = false -> boardOk (board gs) ->
  exists valid merged spawnValid,
    isValidMove (board gs) (currentPiece gs)
      (mkPosition (row (currentPosition gs) + 1) (col (currentPosition gs)))
    = Ok valid /\
    (valid = true <->
     pieceFits (board gs) (currentPiece gs)
       (mkPosition (row (currentPosition gs) + 1)
          (col (currentPosition gs)))) /\
    mergePieceWithBoard (board gs) (currentPiece gs) (currentPosition gs)
    = Ok merged /\
    boardOk merged /\
    (forall R C,
        (R < Z.to_nat BOARD_HEIGHT)%nat -> (C < Z.to_nat BOARD_WIDTH)%nat ->
        (covers (currentPiece gs) (currentPosition gs) R C ->
         cellAt merged R C = Some 1) /\
        (~ covers (currentPiece gs) (currentPosition gs) R C ->
         cellAt merged R C = cellAt (board gs) R C)) /\
    isValidMove merged (nextPiece gs) (mkPosition 0 4) = Ok spawnValid /\
    (spawnValid = true <-> pieceFits merged (nextPiece gs) (mkPosition 0 4)) /\
    (valid = true ->
     moveDown gs randomType (mkWorld gs ts)
     = (mkWorld
          (mkGameState (board gs) (currentPiece gs)
             (mkPosition (row (currentPosition gs) + 1)
                (col (currentPosition gs)))
             (nextPiece gs) (score gs) false false) ts,
        Ok tt)) /\
    (valid = false ->
     (forall cells, In cells merged -> ~ Forall (fun cell => cell = 1) cells) ->
     moveDown gs randomType (mkWorld gs ts)
     = (mkWorld
          (mkGameState merged (nextPiece gs) (mkPosition 0 4)
             (TETROMINOES randomType) (score gs) (negb spawnValid) false) ts,
        Ok tt)).
Proof.
  intros Hover Hpaused Hb.
  assert (Hlen : (Z.to_nat BOARD_HEIGHT <= length (board gs))%nat)
    by (destruct Hb as [-> _]; lia).
  destruct (isValidMove_total (board gs) (currentPiece gs)
              (mkPosition (row (currentPosition gs) + 1)
                 (col (currentPosition gs))) Hlen) as [valid Hvalid].
  destruct (mergePieceWithBoard_boardOk (board gs) (currentPiece gs)
              (currentPosition gs) Hb) as (merged & Hmerged & Hmb).
  assert (Hmlen : (Z.to_nat BOARD_HEIGHT <= length merged)%nat)
    by (destruct Hmb as [-> _]; lia).
  destruct (isValidMove_total merged (nextPiece gs) (mkPosition 0 4) Hmlen)
    as [spawnValid Hspawn].
  exists valid, merged, spawnValid.
  split; [assumption|].
  split.
  { rewrite <- (isValidMove_fits (board gs) _ _ Hlen), Hvalid.
    split; [now intros ->|congruence]. }
  split; [assumption|]. split; [assumption|].
  split.
  { intros R C HR HC.
    destruct (mergePieceWithBoard_painted (board gs) merged (currentPiece gs)
                (currentPosition gs) Hb Hmerged R C HR HC) as [Hs Hc].
    split; [assumption|]. intros Hno. destruct Hc as [Heq|[HS _]]; tauto. }
  split; [assumption|].
  split.
  { split.
    - intros ->. now apply isValidMove_fits_weak.
    - intros Hfit. apply (isValidMove_fits merged _ _ Hmlen) in Hfit.
      congruence. }
  unfold moveDown. rewrite Hover, Hpaused. cbn [orb].
  unfold bind at 1. unfold lift at 1. rewrite Hvalid.
  split; intros ->.
  - unfold setGameState, withPosition. cbn [state timeouts].
    now rewrite Hover, Hpaused.
  - intros Hnone. unfold bind at 1. unfold lift at 1. rewrite Hmerged.
    unfold bind at 1. unfold lift at 1.
    rewrite (clearLines_nothing merged (proj1 Hmb)
               (fullRowsFrom_none merged Hnone 0)).
    unfold bind, lift.
    cbn [clearedRows newBoard linesCleared length Nat.ltb Nat.leb].
    change spawnPosition with (mkPosition 0 4). rewrite Hspawn.
    unfold setGameState, withSettled, getRandomTetromino.
    cbn [state timeouts]. rewrite Hpaused. repeat f_equal. lia.
Qed.

Lemma moveDown_spec_witness :
  mergePieceWithBoard createEmptyBoard (TETROMINOES TypeO) (mkPosition 18 4)
  = Ok restingO /\
  cellAt restingO 18 4 = Some 1 /\
  moveDown (mkGameState createEmptyBoard (TETROMINOES TypeO)
              (mkPosition 18 4) (TETROMINOES TypeT) 0 false false)
    TypeL (mkWorld (mkGameState createEmptyBoard (TETROMINOES TypeO)
                      (mkPosition 18 4) (TETROMINOES TypeT) 0 false false) [])
  = (mkWorld
       (mkGameState restingO (TETROMINOES TypeT) (mkPosition 0 4)
          (TETROMINOES TypeL) 0 false false) [],
     Ok tt).
Proof.
  destruct (moveDown_spec
              (mkGameState createEmptyBoard (TETROMINOES TypeO)
                 (mkPosition 18 4) (TETROMINOES TypeT) 0 false false)
              TypeL [] eq_refl eq_refl boardOk_createEmptyBoard)
    as (valid & merged & spawnValid & Hvalid & _ & Hmerged & _ & Hcells
        & Hspawn & _ & _ & Hland).
  cbn [board currentPiece currentPosition nextPiece score row col] in *.
  assert (Hm : merged = restingO).
  { assert (Hcompute : mergePieceWithBoard createEmptyBoard (TETROMINOES TypeO)
                         (mkPosition 18 4) = Ok restingO) by reflexivity.
    rewrite Hcompute in Hmerged. now injection Hmerged. }
  subst merged.
  assert (Hv : valid = false).
  { assert (Hcompute : isValidMove createEmptyBoard (TETROMINOES TypeO)
                         (mkPosition (18 + 1) 4) = Ok false) by reflexivity.
    rewrite Hcompute in Hvalid. now injection Hvalid. }
  assert (Hs : spawnValid = true).
  { assert (Hcompute : isValidMove restingO (TETROMINOES TypeT)
                         (mkPosition 0 4) = Ok true) by reflexivity.
    rewrite Hcompute in Hspawn. now injection Hspawn. }
  subst spawnValid. split; [exact Hmerged|]. split.
  - apply (Hcells 18%nat 4%nat); [simpl; lia|simpl; lia|].
    exists 0%nat, 0%nat. split; [|split; reflexivity].
    exists [1; 1], 1. repeat split. discriminate.
  - apply (Hland Hv). intros cells Hin Hall. apply isFull_spec in Hall.
    assert (Hnone : forallb (fun row => negb (isFull row)) restingO = true)
      by reflexivity.
    rewrite forallb_forall in Hnone. specialize (Hnone cells Hin).
    rewrite Hall in Hnone. discriminate.
Defined.

(** X5.  On a board of BOARD_HEIGHT rows of BOARD_WIDTH cells
    [mergePieceWithBoard] returns for every piece and every position,
    also one that is off the board; the result has the same dimensions,
    holds 1 in every cell the piece covers and the cell of the input
    board everywhere else. *)
Theorem mergePieceWithBoard_cells (b : Board) (piece : Tetromino)
  (pos : Position) :
  boardOk b ->
  exists m,
    mergePieceWithBoard b piece pos = Ok m /\ boardOk m /\
    forall R C,
      (R < Z.to_nat BOARD_HEIGHT)%nat -> (C < Z.to_nat BOARD_WIDTH)%nat ->
      (covers piece pos R C -> cellAt m R C = Some 1) /\
      (~ covers piece pos R C -> cellAt m R C = cellAt b R C).
Proof.
  intros Hb.
  destruct (mergePieceWithBoard_boardOk b piece pos Hb) as (m & Hm & Hmb).
  exists m. split; [assumption|]. split; [assumption|].
  intros R C HR HC.
  destruct (mergePieceWithBoard_painted b m piece pos Hb Hm R C HR HC)
    as [Hs Hc].
  split; [assumption|]. intros Hno. destruct Hc as [Heq|[HS _]]; tauto.
Qed.

Lemma mergePieceWithBoard_cells_witness :
  exists m,
    mergePieceWithBoard createEmptyBoard (TETROMINOES TypeT) (mkPosition 19 8)
    = Ok m /\ boardOk m /\
    forall R C,
      (R < Z.to_nat BOARD_HEIGHT)%nat -> (C < Z.to_nat BOARD_WIDTH)%nat ->
      (covers (TETROMINOES TypeT) (mkPosition 19 8) R C ->
       cellAt m R C = Some 1) /\
      (~ covers (TETROMINOES TypeT) (mkPosition 19 8) R C ->
       cellAt m R C = cellAt createEmptyBoard R C).
Proof.
  apply (mergePieceWithBoard_cells createEmptyBoard (TETROMINOES TypeT)
           (mkPosition 19 8)).
  split; [reflexivity|]. repeat constructor.
Defined.

Lemma board_ext (a b : Board) :
  boardOk a -> boardOk b ->
  (forall R C, (R < Z.to_nat BOARD_HEIGHT)%nat -> (C < Z.to_nat BOARD_WIDTH)%nat ->
               cellAt a R C = cellAt b R C) ->
  a = b.
Proof.
  intros [Hla Hwa] [Hlb Hwb] Hcells. apply nth_error_ext. intros R.
  destruct (Nat.lt_ge_cases R (Z.to_nat BOARD_HEIGHT)) as [HR|HR].
  - destruct (nth_error a R) as [ra|] eqn:Ha;
      [|apply nth_error_None in Ha; lia].
    destruct (nth_error b R) as [rb|] eqn:Hb;
      [|apply nth_error_None in Hb; lia].
    f_equal. apply nth_error_ext. intros C.
    rewrite Forall_forall in Hwa, Hwb.
    pose proof (Hwa ra (nth_error_In _ _ Ha)) as Hra.
    pose proof (Hwb rb (nth_error_In _ _ Hb)) as Hrb.
    destruct (Nat.lt_ge_cases C (Z.to_nat BOARD_WIDTH)) as [HC|HC].
    + specialize (Hcells R C HR HC). unfold cellAt in Hcells.
      now rewrite Ha, Hb in Hcells.
    + transitivity (@None Z); [|symmetry]; apply nth_error_None; lia.
  - transitivity (@None (list Z)); [|symmetry]; apply nth_error_None; lia.
Qed.

Lemma painted_filled (S : nat -> nat -> Prop) (b m : Board) (R C : nat) :
  painted S b m ->
  (R < Z.to_nat BOARD_HEIGHT)%nat -> (C < Z.to_nat BOARD_WIDTH)%nat ->
  filledIn b R C -> filledIn m R C.
Proof.
  intros Hp HR HC Hf. apply filledIn_cellAt.
  destruct (Hp R C HR HC) as [_ [Heq|[_ Hone]]].
  - rewrite Heq. now apply filledIn_cellAt.
  - exists 1. split; [assumption|lia].
Qed.

(** Whatever fits on the merged board fitted on the board before. *)
Lemma merged_fits (b m : Board) (piece q : Tetromino) (pos p : Position) :
  boardOk b -> mergePieceWithBoard b piece pos = Ok m ->
  pieceFits m q p -> pieceFits b q p.
Proof.
  intros Hb Hm [Hin Hno]. split; [assumption|].
  intros r c Hf Hfilled. apply (Hno r c Hf).
  destruct (Hin r c Hf) as [Hr Hc].
  apply (painted_filled _ b m _ _ (mergePieceWithBoard_painted b m piece pos Hb Hm));
    try assumption; unfold BOARD_HEIGHT, BOARD_WIDTH in *; lia.
Qed.

(** Merging the same piece at the same place a second time changes
    nothing. *)
Lemma merged_again (b m : Board) (piece : Tetromino) (pos : Position) :
  boardOk b -> mergePieceWithBoard b piece pos = Ok m ->
  mergePieceWithBoard m piece pos = Ok m.
Proof.
  intros Hb Hm.
  destruct (mergePieceWithBoard_boardOk b piece pos Hb) as (m0 & Hm0 & Hmb).
  assert (m0 = m) by congruence. subst m0.
  destruct (mergePieceWithBoard_boardOk m piece pos Hmb) as (m2 & Hm2 & Hmb2).
  rewrite Hm2. f_equal. apply board_ext; try assumption. intros R C HR HC.
  destruct (mergePieceWithBoard_painted b m piece pos Hb Hm R C HR HC)
    as [Hs _].
  destruct (mergePieceWithBoard_painted m m2 piece pos Hmb Hm2 R C HR HC)
    as [_ [Heq|[HS Hone]]]; [assumption|].
  rewrite Hone. symmetry. auto.
Qed.

(** X6.  [mergePieceWithBoard] only fills cells: a placement that
    [isValidMove] accepts on the merged board was acceptable on the board
    before.  The piece that was merged is itself no longer acceptable
    where it lies, as soon as it has a filled cell and lay within the
    bounds; and merging it there once more changes nothing. *)
Theorem mergePieceWithBoard_blocks (b m : Board) (piece : Tetromino)
  (pos : Position) :
  boardOk b -> mergePieceWithBoard b piece pos = Ok m ->
  (forall q p, isValidMove m q p = Ok true -> isValidMove b q p = Ok true) /\
  (inBounds piece pos -> (exists r c, filledIn (shape piece) r c) ->
   isValidMove m piece pos = Ok false) /\
  mergePieceWithBoard m piece pos = Ok m.
Proof.
  intros Hb Hm.
  destruct (mergePieceWithBoard_boardOk b piece pos Hb) as (m0 & Hm0 & Hmb).
  assert (m0 = m) by congruence. subst m0.
  split; [|split].
  - intros q p Hv. apply (isValidMove_fits b q p (boardOk_height b Hb)).
    apply (merged_fits b m piece q pos p Hb Hm).
    now apply isValidMove_fits_weak.
  - intros Hin (r & c & Hf).
    destruct (isValidMove_total m piece pos (boardOk_height m Hmb))
      as [[|] Hv]; [|assumption].
    exfalso. apply isValidMove_fits_weak in Hv. destruct Hv as [_ Hno].
    apply (Hno r c Hf). destruct (Hin r c Hf) as [Hr Hc].
    apply filledIn_cellAt. exists 1. split; [|lia].
    apply (mergePieceWithBoard_painted b m piece pos Hb Hm);
      [unfold BOARD_HEIGHT in *; lia|unfold BOARD_WIDTH in *; lia|].
    exists r, c. split; [assumption|]. split; lia.
  - now apply (merged_again b).
Qed.

Lemma mergePieceWithBoard_blocks_witness :
  (forall q p, isValidMove restingO q p = Ok true ->
               isValidMove createEmptyBoard q p = Ok true) /\
  isValidMove restingO (TETROMINOES TypeO) (mkPosition 18 4) = Ok false /\
  mergePieceWithBoard restingO (TETROMINOES TypeO) (mkPosition 18 4)
  = Ok restingO.
Proof.
  destruct (mergePieceWithBoard_blocks createEmptyBoard restingO
              (TETROMINOES TypeO) (mkPosition 18 4)
              boardOk_createEmptyBoard eq_refl) as (Hmono & Hblock & Hagain).
  split; [exact Hmono|]. split; [|exact Hagain].
  apply Hblock.
  - apply (isValidMove_fits_weak createEmptyBoard). reflexivity.
  - exists 0%nat, 0%nat, [1; 1], 1. repeat split. discriminate.
Defined.

(** ** More on [clearLines] *)

Lemma fullRowsFrom_none_full (b : Board) :
  (forall cells, In cells b -> isFull cells = false) ->
  forall index, fullRowsFrom index b = [].
Proof.
  intros Hnone index. apply fullRowsFrom_none. intros cells Hin Hall.
  apply isFull_spec in Hall. rewrite (Hnone cells Hin) in Hall. discriminate.
Qed.

(** X7.  What [clearLines] returns on a board of BOARD_HEIGHT rows of
    BOARD_WIDTH cells has no full row left: clearing it again finds no
    row, clears none and returns the same board. *)
Theorem clearLines_twice (b : Board) (cl : Cleared) :
  boardOk b -> clearLines b = Ok cl ->
  clearLines (newBoard cl) = Ok (mkCleared [] (newBoard cl) 0).
Proof.
  intros Hb Hcl. pose proof (clearLines_boardOk b cl Hb Hcl) as [Hlen _].
  apply clearLines_nothing; [assumption|].
  apply fullRowsFrom_none_full. intros cells Hin.
  rewrite (clearLines_Ok b (proj1 Hb)) in Hcl. injection Hcl as <-.
  cbn [newBoard] in Hin. apply in_app_or in Hin. destruct Hin as [Hin|Hin].
  - apply repeat_spec in Hin. subst cells. reflexivity.
  - apply filter_In in Hin. destruct Hin as [_ Hnot].
    now apply negb_true_iff in Hnot.
Qed.

Lemma clearLines_twice_witness :
  clearLines (newBoard (mkCleared [3; 7] createEmptyBoard 2))
  = Ok (mkCleared [] (newBoard (mkCleared [3; 7] createEmptyBoard 2)) 0).
Proof.
  apply (clearLines_twice rowsThreeAndSeven
           (mkCleared [3; 7] createEmptyBoard 2)
           boardOk_rowsThreeAndSeven).
  reflexivity.
Defined.

(** X8.  On any board, of any number of rows, [clearLines] either
    returns a board of exactly BOARD_HEIGHT rows or raises a RangeError,
    and it raises exactly when more than BOARD_HEIGHT rows are not full.
    [linesCleared] is BOARD_HEIGHT minus the number of rows kept: it
    exceeds the number of rows listed in [clearedRows] by the number of
    rows the board is short of BOARD_HEIGHT. *)
Theorem clearLines_any_board (b : Board) :
  let kept := filter (fun cells => negb (forallb (fun cell => cell =? 1) cells)) b in
  ((length kept <= Z.to_nat BOARD_HEIGHT)%nat ->
   exists cl,
     clearLines b = Ok cl /\
     length (newBoard cl) = Z.to_nat BOARD_HEIGHT /\
     linesCleared cl = BOARD_HEIGHT - Z.of_nat (length kept) /\
     linesCleared cl
     = Z.of_nat (length (clearedRows cl)) + (BOARD_HEIGHT - Z.of_nat (length b))) /\
  ((Z.to_nat BOARD_HEIGHT < length kept)%nat ->
   clearLines b = Stop RangeError).
Proof.
  cbv zeta.
  change (filter (fun cells => negb (forallb (fun cell => cell =? 1) cells)) b)
    with (filter (fun cells => negb (isFull cells)) b).
  unfold clearLines.
  remember (filter (fun cells => negb (isFull cells)) b) as kept eqn:Hkept.
  pose proof (filter_split_length isFull b) as Hsplit.
  rewrite <- Hkept in Hsplit.
  remember (BOARD_HEIGHT - Z.of_nat (length kept)) as k eqn:Hk.
  split; intros Hle.
  - assert (Hneg : (k <? 0) = false)
      by (apply Z.ltb_ge; unfold BOARD_HEIGHT in *; lia).
    rewrite Hneg. eexists. split; [reflexivity|].
    cbn [newBoard linesCleared clearedRows].
    rewrite length_app, repeat_length, fullRowsFrom_length.
    unfold BOARD_HEIGHT in *. repeat split; lia.
  - assert (Hneg : (k <? 0) = true)
      by (apply Z.ltb_lt; unfold BOARD_HEIGHT in *; lia).
    now rewrite Hneg.
Qed.

Lemma clearLines_any_board_witness :
  (exists cl,
      clearLines [[1; 1]; [0; 1]] = Ok cl /\
      length (newBoard cl) = Z.to_nat BOARD_HEIGHT /\
      linesCleared cl = BOARD_HEIGHT - Z.of_nat 1 /\
      linesCleared cl
      = Z.of_nat (length (clearedRows cl)) + (BOARD_HEIGHT - Z.of_nat 2)) /\
  clearLines (repeat [0] 21) = Stop RangeError.
Proof.
  split.
  - apply (proj1 (clearLines_any_board [[1; 1]; [0; 1]])). simpl. lia.
  - apply (proj2 (clearLines_any_board (repeat [0] 21))). simpl. lia.
Defined.

(** ** More on [rotatePiece] *)

Lemma matrix_ext (n m : nat) (a b : list (list Z)) :
  length a = n -> Forall (fun cells => length cells = m) a ->
  length b = n -> Forall (fun cells => length cells = m) b ->
  (forall r c, (r < n)%nat -> (c < m)%nat -> cellAt a r c = cellAt b r c) ->
  a = b.
Proof.
  intros Hla Hwa Hlb Hwb Hcells. apply nth_error_ext. intros r.
  destruct (Nat.lt_ge_cases r n) as [Hr|Hr].
  - destruct (nth_error a r) as [ra|] eqn:Ha;
      [|apply nth_error_None in Ha; lia].
    destruct (nth_error b r) as [rb|] eqn:Hb;
      [|apply nth_error_None in Hb; lia].
    f_equal. apply nth_error_ext. intros c.
    rewrite Forall_forall in Hwa, Hwb.
    pose proof (Hwa ra (nth_error_In _ _ Ha)) as Hra.
    pose proof (Hwb rb (nth_error_In _ _ Hb)) as Hrb.
    destruct (Nat.lt_ge_cases c m) as [Hc|Hc].
    + specialize (Hcells r c Hr Hc). unfold cellAt in Hcells.
      now rewrite Ha, Hb in Hcells.
    + transitivity (@None Z); [|symmetry]; apply nth_error_None; lia.
  - transitivity (@None (list Z)); [|symmetry]; apply nth_error_None; lia.
Qed.

(** X9.  Four rotations give back every piece whose shape is a square
    matrix, not only the seven of the catalog. *)
Theorem rotatePiece_four_times (piece : Tetromino) (N : nat) :
  (0 < N)%nat -> squareOf N (shape piece) ->
  rotateTimes 4 piece = Ok piece.
Proof.
  intros HN Hsq.
  destruct (rotatePiece_square piece N HN Hsq)
    as (p1 & H1 & Ht1 & Hc1 & Hsq1 & Hcell1).
  destruct (rotatePiece_square p1 N HN Hsq1)
    as (p2 & H2 & Ht2 & Hc2 & Hsq2 & Hcell2).
  destruct (rotatePiece_square p2 N HN Hsq2)
    as (p3 & H3 & Ht3 & Hc3 & Hsq3 & Hcell3).
  destruct (rotatePiece_square p3 N HN Hsq3)
    as (p4 & H4 & Ht4 & Hc4 & Hsq4 & Hcell4).
  cbn [rotateTimes obind]. rewrite H1. cbn [obind]. rewrite H2. cbn [obind].
  rewrite H3. cbn [obind]. rewrite H4. f_equal.
  assert (Hshape : shape p4 = shape piece).
  { destruct Hsq as [Hl Hw]. destruct Hsq4 as [Hl4 Hw4].
    apply (matrix_ext N N); try assumption. intros r c Hr Hc.
    replace c with (N - 1 - (N - 1 - c))%nat at 1 by lia.
    rewrite (Hcell4 (N - 1 - c)%nat r) by lia.
    replace r with (N - 1 - (N - 1 - r))%nat at 1 by lia.
    rewrite (Hcell3 (N - 1 - r)%nat (N - 1 - c)%nat) by lia.
    replace (N - 1 - c)%nat with (N - 1 - (N - 1 - (N - 1 - c)))%nat at 1 by lia.
    rewrite (Hcell2 (N - 1 - (N - 1 - c))%nat (N - 1 - r)%nat) by lia.
    replace (N - 1 - (N - 1 - c))%nat with c by lia.
    apply (Hcell1 r c); assumption. }
  destruct p4 as [s4 t4 c4]. destruct piece as [s t c]. cbn in *.
  congruence.
Qed.

Lemma rotatePiece_four_times_witness :
  rotateTimes 4 (mkTetromino [[1; 2]; [0; 0]] TypeS "grey")
  = Ok (mkTetromino [[1; 2]; [0; 0]] TypeS "grey").
Proof.
  apply (rotatePiece_four_times (mkTetromino [[1; 2]; [0; 0]] TypeS "grey")
           2%nat); [lia|].
  split; [reflexivity|]. repeat constructor.
Defined.

Lemma omap_Stop {A B : Type} (f : A -> Outcome B) (l : list A) (e : Failure) :
  omap f l = Stop e -> exists x, In x l /\ f x = Stop e.
Proof.
  induction l as [|x rest IH]; simpl; [discriminate|].
  destruct (f x) as [y|e'] eqn:Hx; simpl.
  - destruct (omap f rest) as [ys|e''] eqn:Hrest; simpl; [discriminate|].
    intros H. injection H as <-. destruct (IH eq_refl) as (x' & Hin & Hx').
    exists x'. auto.
  - intros H. injection H as <-. exists x. auto.
Qed.

Lemma omap_Ok_inv {A B : Type} (f : A -> Outcome B) (l : list A) :
  forall ys, omap f l = Ok ys ->
             length ys = length l /\
             forall x, In x l -> exists y, f x = Ok y.
Proof.
  induction l as [|x rest IH]; intros ys; simpl.
  - intros H. injection H as <-. split; [reflexivity|contradiction].
  - destruct (f x) as [y|e] eqn:Hx; simpl; [|discriminate].
    destruct (omap f rest) as [zs|e] eqn:Hrest; simpl; [|discriminate].
    intros H. injection H as <-. destruct (IH zs eq_refl) as [Hlen Hall].
    split; [simpl; now rewrite Hlen|].
    intros x' [<-|Hin]; [eauto|auto].
Qed.

Lemma column_Ok_inv (index : nat) (rows : list (list Z)) (cells : list Z) :
  column index rows = Ok cells ->
  Forall (fun row => (index < length row)%nat) rows.
Proof.
  intros Hcol. apply omap_Ok_inv in Hcol. destruct Hcol as [_ Hall].
  apply Forall_forall. intros row Hin. destruct (Hall row Hin) as [y Hy].
  apply nth_error_Some. destruct (nth_error row index); [discriminate|].
  discriminate.
Qed.

(** X10.  [rotatePiece] returns exactly when the shape has a first row
    and no row shorter than it, and then with as many rows as the first
    row has cells.  On the empty shape it raises a TypeError; with a row
    shorter than the first one the result would hold [undefined]. *)
Theorem rotatePiece_outcome (piece : Tetromino) :
  match rotatePiece piece with
  | Ok rotated =>
      exists first rest,
        shape piece = first :: rest /\
        Forall (fun cells => (length first <= length cells)%nat) rest /\
        length (shape rotated) = length first
  | Stop e =>
      (e = TypeError /\ shape piece = []) \/
      (e = UndefinedCell /\
       exists first rest,
         shape piece = first :: rest /\
         Exists (fun cells => (length cells < length first)%nat) rest)
  end.
Proof.
  unfold rotatePiece. destruct (shape piece) as [|first rest] eqn:Hshape;
    [now left|].
  destruct (omap _ (seq 0 (length first))) as [newShape|e] eqn:Hmap;
    cbn [obind].
  - exists first, rest. split; [reflexivity|].
    apply omap_Ok_inv in Hmap. destruct Hmap as [Hlen Hall].
    rewrite length_seq in Hlen. split; [|exact Hlen].
    apply Forall_forall. intros cells Hin.
    destruct (le_dec (length first) (length cells)) as [|Hshort];
      [assumption|exfalso].
    destruct (Hall (length cells)) as [y Hy]; [apply in_seq; lia|].
    destruct (column (length cells) (first :: rest)) as [col|e] eqn:Hcol;
      [|discriminate].
    apply column_Ok_inv in Hcol. rewrite Forall_forall in Hcol.
    specialize (Hcol cells (or_intror Hin)). lia.
  - right. apply omap_Stop in Hmap. destruct Hmap as (index & Hin & Hf).
    apply in_seq in Hin.
    destruct (column index (first :: rest)) as [col|e'] eqn:Hcol;
      simpl in Hf; [discriminate|]. injection Hf as ->.
    apply omap_Stop in Hcol. destruct Hcol as (cells & Hcells & Hcell).
    destruct (nth_error cells index) eqn:Hn; [discriminate|].
    injection Hcell as <-. split; [reflexivity|].
    exists first, rest. split; [reflexivity|].
    apply nth_error_None in Hn. apply Exists_exists.
    destruct Hcells as [<-|Hcells]; [lia|].
    exists cells. split; [assumption|lia].
Qed.

(** ** What one event can do *)

Lemma moveDown_effect (gs : GameState) (randomType : TetrominoType)
  (ts : list Timeout) :
  sessionOk (mkWorld gs ts) ->
  exists w', moveDown gs randomType (mkWorld gs ts) = (w', Ok tt) /\
             effect gs ts w'.
Proof.
  intros Hok. pose proof (ok_board _ Hok) as Hb. fields.
  unfold moveDown.
  destruct (isGameOver gs) eqn:Hover;
    [eexists; split; [reflexivity|constructor]|].
  destruct (isPaused gs) eqn:Hpaused;
    [eexists; split; [reflexivity|constructor]|].
  cbn [orb].
  destruct (isValidMove_total (board gs) (currentPiece gs)
              (mkPosition (row (currentPosition gs) + 1)
                 (col (currentPosition gs))) (boardOk_height _ Hb))
    as [valid Hvalid].
  unfold bind at 1. unfold lift at 1. rewrite Hvalid. destruct valid.
  - eexists. split; [reflexivity|]. now constructor.
  - destruct (mergePieceWithBoard_boardOk (board gs) (currentPiece gs)
                (currentPosition gs) Hb) as (merged & Hmerged & Hmb).
    unfold bind at 1. unfold lift at 1. rewrite Hmerged.
    unfold bind at 1. unfold lift at 1.
    destruct (clearLines merged) as [cl|e] eqn:Hcl;
      [|rewrite (clearLines_Ok merged (proj1 Hmb)) in Hcl; discriminate].
    destruct (clearedRows cl) as [|i rows] eqn:Hrows.
    + assert (Hfull : fullRowsFrom 0 merged = []).
      { pose proof Hcl as Hcl'.
        rewrite (clearLines_Ok merged (proj1 Hmb)) in Hcl'.
        injection Hcl' as Hcl'. rewrite <- Hcl' in Hrows. exact Hrows. }
      rewrite (clearLines_nothing merged (proj1 Hmb) Hfull) in Hcl.
      injection Hcl as <-.
      cbn [length Nat.ltb Nat.leb newBoard linesCleared].
      destruct (isValidMove_total merged (nextPiece gs) spawnPosition
                  (boardOk_height _ Hmb)) as [spawnValid Hspawn].
      unfold bind, lift. rewrite Hspawn. eexists. split; [reflexivity|].
      unfold setGameState. cbn [state timeouts].
      replace (score gs + 0 * 100) with (score gs) by lia.
      now constructor.
    + cbn [length Nat.ltb Nat.leb]. eexists. split; [reflexivity|].
      unfold setGameState, setTimeout. cbn [state timeouts].
      apply (eff_window gs ts merged cl); try assumption.
      rewrite Hrows. discriminate.
Qed.

Lemma moveLeft_effect (gs : GameState) (ts : list Timeout) :
  sessionOk (mkWorld gs ts) ->
  exists w', moveLeft gs (mkWorld gs ts) = (w', Ok tt) /\ effect gs ts w'.
Proof.
  intros Hok. pose proof (ok_board _ Hok) as Hb. fields. unfold moveLeft.
  destruct (isGameOver gs) eqn:Hover;
    [eexists; split; [reflexivity|constructor]|].
  destruct (isPaused gs) eqn:Hpaused;
    [eexists; split; [reflexivity|constructor]|].
  cbn [orb].
  destruct (isValidMove_total (board gs) (currentPiece gs)
              (mkPosition (row (currentPosition gs))
                 (col (currentPosition gs) - 1)) (boardOk_height _ Hb))
    as [valid Hvalid].
  unfold bind, lift. rewrite Hvalid.
  destruct valid; eexists; (split; [reflexivity|]); now constructor.
Qed.

Lemma moveRight_effect (gs : GameState) (ts : list Timeout) :
  sessionOk (mkWorld gs ts) ->
  exists w', moveRight gs (mkWorld gs ts) = (w', Ok tt) /\ effect gs ts w'.
Proof.
  intros Hok. pose proof (ok_board _ Hok) as Hb. fields. unfold moveRight.
  destruct (isGameOver gs) eqn:Hover;
    [eexists; split; [reflexivity|constructor]|].
  destruct (isPaused gs) eqn:Hpaused;
    [eexists; split; [reflexivity|constructor]|].
  cbn [orb].
  destruct (isValidMove_total (board gs) (currentPiece gs)
              (mkPosition (row (currentPosition gs))
                 (col (currentPosition gs) + 1)) (boardOk_height _ Hb))
    as [valid Hvalid].
  unfold bind, lift. rewrite Hvalid.
  destruct valid; eexists; (split; [reflexivity|]); now constructor.
Qed.

Lemma rotate_effect (gs : GameState) (ts : list Timeout) :
  sessionOk (mkWorld gs ts) ->
  exists w', rotate gs (mkWorld gs ts) = (w', Ok tt) /\ effect gs ts w'.
Proof.
  intros Hok. pose proof (ok_board _ Hok) as Hb.
  pose proof (ok_piece _ Hok) as Hp. fields. unfold rotate.
  destruct (isGameOver gs) eqn:Hover;
    [eexists; split; [reflexivity|constructor]|].
  destruct (isPaused gs) eqn:Hpaused;
    [eexists; split; [reflexivity|constructor]|].
  cbn [orb].
  destruct (rotatePiece_pieceOk (currentPiece gs) Hp) as (rotated & Hrot & _).
  destruct (isValidMove_total (board gs) rotated (currentPosition gs)
              (boardOk_height _ Hb)) as [valid Hvalid].
  unfold bind, lift. rewrite Hrot, Hvalid.
  destruct valid; eexists; (split; [reflexivity|]); now constructor.
Qed.

(** In a session that is in order every event is handled to its end and
    does one of the things [effect] lists. *)
Lemma handle_effect (ev : Event) (gs : GameState) (ts : list Timeout) :
  sessionOk (mkWorld gs ts) ->
  exists w', handle ev (mkWorld gs ts) = (w', Ok tt) /\ effect gs ts w'.
Proof.
  intros Hok.
  assert (Hdrop : forall randomType,
             handle (CallHardDrop randomType) (mkWorld gs ts)
             = handle (CallMoveDown randomType) (mkWorld gs ts)).
  { intros randomType. apply handle_hardDrop.
    - apply boardOk_height, Hok.
    - destruct (ok_piece _ Hok) as (N & _ & _ & Hfilled). exact Hfilled. }
  destruct ev as [key r|r| | |r| |r|first second|r].
  - cbn [handle state]. unfold handleKeyPress.
    destruct (String.eqb key "Enter").
    { eexists. split; [reflexivity|]. constructor. }
    destruct (isPaused gs); [eexists; split; [reflexivity|constructor]|].
    destruct (String.eqb key "ArrowLeft"); [now apply moveLeft_effect|].
    destruct (String.eqb key "ArrowRight"); [now apply moveRight_effect|].
    destruct (String.eqb key "ArrowDown"); [now apply moveDown_effect|].
    destruct (String.eqb key "ArrowUp"); [now apply rotate_effect|].
    destruct (String.eqb key " ");
      [|eexists; split; [reflexivity|constructor]].
    change (hardDrop (dropFuel gs) gs r (mkWorld gs ts))
      with (handle (CallHardDrop r) (mkWorld gs ts)).
    rewrite Hdrop. now apply moveDown_effect.
  - cbn [handle state]. unfold gameLoop.
    destruct (negb (isGameOver gs) && negb (isPaused gs));
      [now apply moveDown_effect|eexists; split; [reflexivity|constructor]].
  - now apply moveLeft_effect.
  - now apply moveRight_effect.
  - now apply moveDown_effect.
  - now apply rotate_effect.
  - rewrite Hdrop. now apply moveDown_effect.
  - eexists. split; [reflexivity|]. constructor.
  - cbn [handle timeouts state].
    destruct ts as [|t rest]; [eexists; split; [reflexivity|constructor]|].
    pose proof (ok_timeouts _ Hok) as Hts. cbn in Hts.
    assert (Ht : timeoutOk t) by now inversion Hts.
    destruct Ht as [Hb _].
    destruct (isValidMove_total (capturedBoard t) (nextPiece (capturedState t))
                spawnPosition (boardOk_height _ Hb)) as [valid Hvalid].
    unfold phaseTwo, bind, lift. rewrite Hvalid.
    eexists. split; [reflexivity|]. now apply eff_fire.
Qed.

Lemma runEvents_app (evs1 evs2 : list Event) :
  forall w w1,
    runEvents evs1 w = Some w1 ->
    runEvents (evs1 ++ evs2) w = runEvents evs2 w1.
Proof.
  induction evs1 as [|ev rest IH]; intros w w1; simpl.
  - now intros [= ->].
  - destruct (step ev w) as [w'|]; [apply IH|discriminate].
Qed.

(** Induction over the reachable sessions, one effect at a time. *)
Lemma reachable_invariant (I : World -> Prop) :
  (forall first second, I (initialWorld first second)) ->
  (forall gs ts w',
      sessionOk (mkWorld gs ts) -> I (mkWorld gs ts) -> effect gs ts w' ->
      I w') ->
  forall w, reachable w -> I w.
Proof.
  intros Hinit Hstep w (first & second & evs & Hrun).
  assert (Hgen : forall events start final,
             sessionOk start -> I start ->
             runEvents events start = Some final -> I final).
  { clear Hrun. intros events.
    induction events as [|ev rest IH]; intros start final Hok HI; simpl.
    - now intros [= <-].
    - destruct start as [gs ts].
      destruct (handle_effect ev gs ts Hok) as (next & Hnext & Heff).
      destruct (handle_ok ev _ Hok) as (next' & Hnext' & Hok').
      assert (next' = next) by congruence. subst next'.
      unfold step. rewrite Hnext. apply IH; [assumption|].
      eapply Hstep; eassumption. }
  eapply Hgen; [apply initial_ok|apply Hinit|exact Hrun].
Qed.

(** ** Where the piece lies in a reachable session *)

(** A piece that was merged where it lay is on filled cells there. *)
Lemma merged_overlaps (b merged : Board) (piece : Tetromino) (pos : Position) :
  boardOk b -> mergePieceWithBoard b piece pos = Ok merged ->
  inBounds piece pos -> (exists r c, filledIn (shape piece) r c) ->
  ~ noOverlap merged piece pos.
Proof.
  intros Hb Hm Hin (r & c & Hf) Hno. apply (Hno r c Hf).
  destruct (Hin r c Hf) as [Hr Hc]. apply filledIn_cellAt.
  exists 1. split; [|lia].
  apply (mergePieceWithBoard_painted b merged piece pos Hb Hm);
    [unfold BOARD_HEIGHT in *; lia|unfold BOARD_WIDTH in *; lia|].
  exists r, c. split; [assumption|]. split; lia.
Qed.

Lemma placement_invariant (w : World) :
  reachable w ->
  (isGameOver (state w) = false ->
   noOverlap (board (state w)) (currentPiece (state w))
     (currentPosition (state w)) \/
   exists t, In t (timeouts w) /\ publishedWindow t (state w)) /\
  (isGameOver (state w) = true ->
   isValidMove (board (state w)) (currentPiece (state w))
     (currentPosition (state w)) = Ok false) /\
  Forall (fun t => boardOk (board (capturedState t))) (timeouts w).
Proof.
  revert w. apply reachable_invariant.
  - intros first second. cbn. split; [|split; [discriminate|constructor]].
    intros _. left.
    apply (isValidMove_fits_weak createEmptyBoard), spawn_valid.
  - intros gs ts w' Hok (Hfree & Hover' & Hts) Heff. fields.
    pose proof (ok_board _ Hok) as Hb. fields.
    destruct Heff as [|pos Hover Hpaused Hvalid
                      |rotated Hover Hpaused Hrot Hvalid|
                      |merged cl Hover Hpaused Hmerged Hcl Hrows
                      |merged drawn valid Hover Hpaused Hmerged Hfull Hvalid
                      |first second|t rest drawn valid Hts' Hvalid];
      spreads.
    + auto.
    + split; [|split; [congruence|assumption]].
      intros _. left. apply (isValidMove_fits_weak _ _ _ Hvalid).
    + split; [|split; [congruence|assumption]].
      intros _. left. apply (isValidMove_fits_weak _ _ _ Hvalid).
    + auto.
    + split; [|split; [congruence|]].
      * intros _. right.
        exists (mkTimeout 800 gs (newBoard cl) (linesCleared cl)).
        split; [apply in_or_app; right; now left|].
        exists merged. cbn. auto.
      * apply Forall_app. split; [assumption|].
        constructor; [exact Hb|constructor].
    + split; [|split; [|assumption]].
      * intros Hnew. apply negb_false_iff in Hnew. subst valid. left.
        apply (isValidMove_fits_weak _ _ _ Hvalid).
      * intros Hnew. apply negb_true_iff in Hnew. now subst valid.
    + split; [|split; [discriminate|assumption]].
      intros _. left.
      apply (isValidMove_fits_weak createEmptyBoard), spawn_valid.
    + subst ts. split; [|split; [|apply (Forall_inv_tail Hts)]].
      * intros Hnew. apply negb_false_iff in Hnew. subst valid. left.
        apply (isValidMove_fits_weak _ _ _ Hvalid).
      * intros Hnew. apply negb_true_iff in Hnew. now subst valid.
Qed.

(** C2, as the code has it.  In every state reachable from an initial
    state by key presses, ticks, calls of the commands and timeouts
    firing, every filled cell of [currentPiece] placed at
    [currentPosition] lies within [0, BOARD_HEIGHT) x [0, BOARD_WIDTH).
    While [isGameOver] is false none of them lies on a filled cell of
    [board], unless the state still shows what phase 1 of a landing
    published and the callback of that landing is pending.  In those
    two kinds of state, the one with [isGameOver] set and the one phase 1
    published, the piece does lie on filled cells. *)
Theorem reachable_placement (w : World) :
  reachable w ->
  inBounds (currentPiece (state w)) (currentPosition (state w)) /\
  (isGameOver (state w) = false ->
   noOverlap (board (state w)) (currentPiece (state w))
     (currentPosition (state w)) \/
   exists t, In t (timeouts w) /\ publishedWindow t (state w)) /\
  (isGameOver (state w) = true ->
   ~ noOverlap (board (state w)) (currentPiece (state w))
       (currentPosition (state w))) /\
  (forall t, In t (timeouts w) -> publishedWindow t (state w) ->
   ~ noOverlap (board (state w)) (currentPiece (state w))
       (currentPosition (state w))).
Proof.
  intros Hreach. pose proof (reachable_ok w Hreach) as Hok.
  destruct (placement_invariant w Hreach) as (Hfree & Hover & Hts).
  pose proof (ok_bounds w Hok) as Hin.
  split; [exact Hin|]. split; [exact Hfree|]. split.
  - intros Hset Hno. specialize (Hover Hset).
    assert (Hfit : isValidMove (board (state w)) (currentPiece (state w))
                     (currentPosition (state w)) = Ok true).
    { apply isValidMove_fits; [apply boardOk_height, Hok|now split]. }
    congruence.
  - intros t Ht (merged & Hmerged & Hboard & Hpiece & Hpos).
    rewrite Forall_forall in Hts. specialize (Hts t Ht).
    rewrite Hboard. rewrite Hpiece, Hpos in *.
    apply (merged_overlaps (board (capturedState t))); try assumption.
    destruct (ok_piece w Hok) as (N & _ & _ & Hfilled).
    now rewrite Hpiece in Hfilled.
Qed.

Lemma reachable_placement_witness :
  inBounds (TETROMINOES TypeO) (mkPosition 18 8) /\
  (noOverlap landingMerged (TETROMINOES TypeO) (mkPosition 18 8) \/
   exists t,
     In t [mkTimeout 800 landingState (newBoard landingCleared) 1] /\
     publishedWindow t
       (mkGameState landingMerged (TETROMINOES TypeO) (mkPosition 18 8)
          (TETROMINOES TypeT) 0 false false)) /\
  ~ noOverlap landingMerged (TETROMINOES TypeO) (mkPosition 18 8).
Proof.
  destruct (reachable_placement
              (mkWorld
                 (mkGameState landingMerged (TETROMINOES TypeO)
                    (mkPosition 18 8) (TETROMINOES TypeT) 0 false false)
                 [mkTimeout 800 landingState (newBoard landingCleared) 1]))
    as (Hin & Hfree & _ & Hwindow).
  { exists TypeI, TypeI, clearingEvents. vm_compute. reflexivity. }
  split; [exact Hin|]. split; [exact (Hfree eq_refl)|].
  apply (Hwindow (mkTimeout 800 landingState (newBoard landingCleared) 1));
    [now left|].
  exists landingMerged. repeat split.
Defined.

(** ** More on reachable sessions *)

(** X11.  In a reachable session no event raises an exception and none
    keeps [hardDrop] in its loop: every key, tick, call and timeout is
    handled to its end, and the session it leaves is reachable. *)
Theorem reachable_never_fails (w : World) (ev : Event) :
  reachable w ->
  exists w', handle ev w = (w', Ok tt) /\ reachable w'.
Proof.
  intros Hreach. pose proof (reachable_ok w Hreach) as Hok.
  destruct (handle_ok ev w Hok) as (w' & Hw' & _).
  exists w'. split; [assumption|].
  destruct Hreach as (first & second & evs & Hrun).
  exists first, second, (evs ++ [ev]).
  rewrite (runEvents_app evs [ev] _ w Hrun). simpl. unfold step.
  now rewrite Hw'.
Qed.

Lemma reachable_never_fails_witness :
  exists w',
    handle (CallHardDrop TypeS) (initialWorld TypeL TypeJ) = (w', Ok tt) /\
    reachable w'.
Proof.
  apply (reachable_never_fails (initialWorld TypeL TypeJ) (CallHardDrop TypeS)).
  exists TypeL, TypeJ, []. reflexivity.
Defined.

Lemma binary_createEmptyBoard : binary createEmptyBoard.
Proof.
  intros cells v Hcells Hv. apply repeat_spec in Hcells. subst cells.
  simpl in Hv. repeat (destruct Hv as [<-|Hv]; [now left|]). contradiction.
Qed.

Lemma binary_merged (b m : Board) (piece : Tetromino) (pos : Position) :
  boardOk b -> binary b -> mergePieceWithBoard b piece pos = Ok m ->
  binary m.
Proof.
  intros Hb Hbin Hm cells v Hcells Hv.
  destruct (mergePieceWithBoard_boardOk b piece pos Hb) as (m0 & Hm0 & Hmb).
  assert (m0 = m) by congruence. subst m0.
  destruct (In_nth_error _ _ Hcells) as [R HR].
  destruct (In_nth_error _ _ Hv) as [C HC].
  assert (HRlt : (R < Z.to_nat BOARD_HEIGHT)%nat).
  { destruct Hmb as [<- _]. apply nth_error_Some. congruence. }
  assert (HClt : (C < Z.to_nat BOARD_WIDTH)%nat).
  { destruct Hmb as [_ Hw]. rewrite Forall_forall in Hw.
    rewrite <- (Hw cells Hcells). apply nth_error_Some. congruence. }
  assert (Hcell : cellAt m R C = Some v) by (unfold cellAt; now rewrite HR).
  destruct (mergePieceWithBoard_painted b m piece pos Hb Hm R C HRlt HClt)
    as [_ [Heq|[_ Hone]]].
  - rewrite Hcell in Heq. symmetry in Heq. unfold cellAt in Heq.
    destruct (nth_error b R) as [cells'|] eqn:Hb'; [|discriminate].
    apply (Hbin cells' v); eauto using nth_error_In.
  - right. congruence.
Qed.

Lemma binary_cleared (b : Board) (cl : Cleared) :
  boardOk b -> binary b -> clearLines b = Ok cl -> binary (newBoard cl).
Proof.
  intros Hb Hbin Hcl. rewrite (clearLines_Ok b (proj1 Hb)) in Hcl.
  injection Hcl as <-. cbn [newBoard]. intros cells v Hcells Hv.
  apply in_app_or in Hcells. destruct Hcells as [Hcells|Hcells].
  - apply repeat_spec in Hcells. subst cells. simpl in Hv.
    repeat (destruct Hv as [<-|Hv]; [now left|]). contradiction.
  - apply filter_In in Hcells. apply (Hbin cells v); tauto.
Qed.

(** X12.  In every reachable session the board has BOARD_HEIGHT rows of
    BOARD_WIDTH cells and every cell is 0 or 1. *)
Theorem reachable_board (w : World) :
  reachable w ->
  boardOk (board (state w)) /\ binary (board (state w)).
Proof.
  intros Hreach. split; [apply (reachable_ok w Hreach)|].
  revert w Hreach.
  apply (reachable_invariant
           (fun w => binary (board (state w)) /\
                     Forall (fun t => binary (capturedBoard t)) (timeouts w))).
  - intros first second. split; [apply binary_createEmptyBoard|constructor].
  - intros gs ts w' Hok [Hbin Hts] Heff. fields.
    pose proof (ok_board _ Hok) as Hb. fields.
    destruct Heff as [|pos Hover Hpaused Hvalid|rotated Hover Hpaused Hrot Hvalid|
                    |merged cl Hover Hpaused Hmerged Hcl Hrows
                    |merged drawn valid Hover Hpaused Hmerged Hfull Hvalid
                    |first second|t rest drawn valid Hts' Hvalid];
      fields; try (split; assumption).
    + assert (Hm : binary merged)
        by now apply (binary_merged (board gs) _ _ _ Hb Hbin Hmerged).
      split; [assumption|]. apply Forall_app. split; [assumption|].
      constructor; [|constructor]. cbn [capturedBoard].
      destruct (mergePieceWithBoard_boardOk (board gs) (currentPiece gs)
                  (currentPosition gs) Hb) as (m0 & Hm0 & Hmb).
      assert (m0 = merged) by congruence. subst m0.
      now apply (binary_cleared merged).
    + split; [|assumption].
      now apply (binary_merged (board gs) _ _ _ Hb Hbin Hmerged).
    + split; [apply binary_createEmptyBoard|assumption].
    + subst ts. split; [apply (Forall_inv Hts)|apply (Forall_inv_tail Hts)].
Qed.

Lemma reachable_board_witness :
  boardOk restingO /\ binary restingO.
Proof.
  apply (reachable_board
           (mkWorld
              (mkGameState restingO (TETROMINOES TypeI) (mkPosition 0 4)
                 (TETROMINOES TypeT) 0 false false) [])).
  exists TypeO, TypeI, (repeat (CallMoveDown TypeT) 19).
  vm_compute. reflexivity.
Defined.

Lemma clearLines_lines (b : Board) (cl : Cleared) :
  clearLines b = Ok cl -> 0 <= linesCleared cl.
Proof.
  unfold clearLines.
  remember (BOARD_HEIGHT
            - Z.of_nat (length (filter (fun cells => negb (isFull cells)) b)))
    as k eqn:Hk.
  destruct (k <? 0) eqn:Hneg; [discriminate|].
  intros H. injection H as <-. cbn [linesCleared]. now apply Z.ltb_ge.
Qed.

(** X13.  In every reachable session the score is a non-negative
    multiple of 100. *)
Theorem reachable_score (w : World) :
  reachable w -> 0 <= score (state w) /\ (100 | score (state w)).
Proof.
  revert w.
  assert (Hinv : forall w, reachable w ->
            (0 <= score (state w) /\ (100 | score (state w))) /\
            Forall (fun t => 0 <= score (capturedState t) /\
                             (100 | score (capturedState t)) /\
                             0 <= capturedLines t) (timeouts w)).
  { apply reachable_invariant.
    - intros first second. split; [|constructor]. cbn. split; [lia|].
      apply Z.divide_0_r.
    - intros gs ts w' _ [[Hpos Hdiv] Hts] Heff.
      destruct Heff as [|pos Hover Hpaused Hvalid|rotated Hover Hpaused Hrot Hvalid|
                    |merged cl Hover Hpaused Hmerged Hcl Hrows
                    |merged drawn valid Hover Hpaused Hmerged Hfull Hvalid
                    |first second|t rest drawn valid Hts' Hvalid];
        fields; try (split; [split|]; assumption).
      + split; [split; assumption|]. apply Forall_app. split; [assumption|].
        constructor; [|constructor]. cbn [capturedState capturedLines].
        repeat split; try assumption. now apply (clearLines_lines merged).
      + split; [|assumption]. cbn. split; [lia|apply Z.divide_0_r].
      + subst ts. pose proof (Forall_inv Hts) as (Hs & Hd & Hl).
        apply Forall_inv_tail in Hts.
        split; [|assumption]. unfold withSettled. fields. split; [nia|].
        apply Z.divide_add_r; [assumption|apply Z.divide_factor_r]. }
  intros w Hreach. apply (Hinv w Hreach).
Qed.

Lemma reachable_score_witness :
  0 <= 100 /\ (100 | 100).
Proof.
  apply (reachable_score
           (mkWorld
              (mkGameState
                 (update 19 [0; 0; 0; 0; 0; 0; 0; 0; 1; 1] createEmptyBoard)
                 (TETROMINOES TypeT) (mkPosition 0 4) (TETROMINOES TypeL)
                 100 false false) [])).
  exists TypeI, TypeI, (clearingEvents ++ [TimeoutFires TypeL]).
  vm_compute. reflexivity.
Defined.

Lemma catalog_four_rotations (key : TetrominoType) :
  rotateTimes 4 (TETROMINOES key) = Ok (TETROMINOES key).
Proof.
  destruct key; reflexivity.
Qed.

Lemma type_TETROMINOES (key : TetrominoType) : type (TETROMINOES key) = key.
Proof.
  now destruct key.
Qed.

Lemma rotatePiece_type (piece rotated : Tetromino) :
  rotatePiece piece = Ok rotated ->
  type rotated = type piece /\ color rotated = color piece.
Proof.
  unfold rotatePiece. destruct (shape piece); [discriminate|].
  destruct (omap _ _); simpl; [|discriminate].
  intros H. injection H as <-. now split.
Qed.

(** X14.  In every reachable session [currentPiece] is one of the four
    rotations of the catalog piece of its own type, and [nextPiece] is
    the catalog piece of its type, not rotated. *)
Theorem reachable_pieces (w : World) :
  reachable w ->
  (exists n, (n < 4)%nat /\
             rotateTimes n (TETROMINOES (type (currentPiece (state w))))
             = Ok (currentPiece (state w))) /\
  nextPiece (state w) = TETROMINOES (type (nextPiece (state w))).
Proof.
  intros Hreach. pose proof (reachable_ok w Hreach) as Hok.
  split.
  - revert w Hreach Hok.
    assert (Hinv : forall w, reachable w ->
              exists n, (n < 4)%nat /\
                rotateTimes n (TETROMINOES (type (currentPiece (state w))))
                = Ok (currentPiece (state w))).
    { apply reachable_invariant.
      - intros first second. exists 0%nat. split; [lia|]. cbn.
        now rewrite type_TETROMINOES.
      - intros gs ts w' Hok (n & Hn & Hrot0) Heff.
        assert (Hcat : forall key,
                   exists k, (k < 4)%nat /\
                     rotateTimes k (TETROMINOES (type (TETROMINOES key)))
                     = Ok (TETROMINOES key)).
        { intros key. exists 0%nat. split; [lia|].
          now rewrite type_TETROMINOES. }
        destruct Heff as [|pos Hover Hpaused Hvalid|rotated Hover Hpaused Hrot Hvalid|
                    |merged cl Hover Hpaused Hmerged Hcl Hrows
                    |merged drawn valid Hover Hpaused Hmerged Hfull Hvalid
                    |first second|t rest drawn valid Hts' Hvalid];
          spreads; try (exists n; split; assumption).
        + destruct (rotatePiece_type _ _ Hrot) as [Htype _]. rewrite Htype.
          destruct (Nat.eq_dec n 3) as [->|Hne].
          * exists 0%nat. split; [lia|]. cbn [rotateTimes]. f_equal.
            pose proof (catalog_four_rotations (type (currentPiece gs)))
              as Hfour.
            cbn [rotateTimes] in Hfour. cbn [rotateTimes] in Hrot0.
            rewrite Hrot0 in Hfour. cbn [obind] in Hfour. congruence.
          * exists (S n). split; [lia|]. cbn [rotateTimes].
            rewrite Hrot0. exact Hrot.
        + destruct (ok_next _ Hok) as [key Hkey]. fields. rewrite Hkey.
          apply Hcat.
        + apply Hcat.
        + subst ts. pose proof (ok_timeouts _ Hok) as Hts. fields.
          destruct (Forall_inv Hts) as [_ [key Hkey]].
          rewrite Hkey. apply Hcat. }
    intros w Hreach _. apply (Hinv w Hreach).
  - destruct (ok_next w Hok) as [key ->]. now rewrite type_TETROMINOES.
Qed.

Lemma reachable_pieces_witness :
  (exists n, (n < 4)%nat /\
     rotateTimes n (TETROMINOES TypeL)
     = Ok (mkTetromino [[0; 1; 0]; [0; 1; 0]; [0; 1; 1]] TypeL "#f0a000")) /\
  TETROMINOES TypeJ = TETROMINOES (type (TETROMINOES TypeJ)).
Proof.
  apply (reachable_pieces
           (mkWorld
              (mkGameState createEmptyBoard
                 (mkTetromino [[0; 1; 0]; [0; 1; 0]; [0; 1; 1]] TypeL "#f0a000")
                 (mkPosition 0 4) (TETROMINOES TypeJ) 0 false false) [])).
  exists TypeL, TypeJ, [CallRotate]. vm_compute. reflexivity.
Defined.

(** ** The flags *)

Lemma handle_gameOver (ev : Event) (w : World) :
  isGameOver (state w) = true -> isResetOrTimeout ev = false ->
  exists paused,
    handle ev w = (mkWorld (withPaused paused (state w)) (timeouts w), Ok tt).
Proof.
  destruct w as [gs ts]. cbn [state timeouts]. intros Hover Hev.
  assert (Hsame : withPaused (isPaused gs) gs = gs) by now destruct gs.
  destruct ev as [key r|r| | |r| |r|first second|r]; try discriminate;
    cbn [handle state];
    unfold handleKeyPress, gameLoop, moveLeft, moveRight, moveDown, rotate,
      hardDrop;
    rewrite ?Hover; cbn [orb negb andb];
    try (exists (isPaused gs); now rewrite Hsame).
  destruct (String.eqb key "Enter");
    [exists (negb (isPaused gs)); reflexivity|].
  exists (isPaused gs). rewrite Hsame.
  destruct (isPaused gs); [reflexivity|].
  repeat match goal with
         | |- context [if String.eqb ?a ?b then _ else _] =>
             destruct (String.eqb a b)
         end; reflexivity.
Qed.

Lemma handle_paused (ev : Event) (w : World) :
  isPaused (state w) = true ->
  isResetOrTimeout ev = false -> isEnter ev = false ->
  handle ev w = (w, Ok tt).
Proof.
  destruct w as [gs ts]. cbn [state timeouts]. intros Hpaused Hev Henter.
  destruct ev as [key r|r| | |r| |r|first second|r]; try discriminate;
    cbn [handle state];
    unfold handleKeyPress, gameLoop, moveLeft, moveRight, moveDown, rotate,
      hardDrop;
    rewrite ?Hpaused, ?orb_true_r, ?andb_false_r; try reflexivity.
  cbn [isEnter] in Henter. now rewrite Henter.
Qed.

(** X15.  Once [isGameOver] is set, no run of keys, ticks and calls
    other than [resetGame] changes anything but [isPaused]: board,
    pieces, position, score, [isGameOver] and the scheduled callbacks
    stay as they are.  While [isPaused] is set, no such run without the
    Enter key changes anything at all. *)
Theorem flags_gate (evs : list Event) (w : World) :
  Forall (fun ev => isResetOrTimeout ev = false) evs ->
  (isGameOver (state w) = true ->
   exists paused,
     runEvents evs w
     = Some (mkWorld (withPaused paused (state w)) (timeouts w))) /\
  (isPaused (state w) = true -> Forall (fun ev => isEnter ev = false) evs ->
   runEvents evs w = Some w).
Proof.
  intros Hevs. split.
  - revert w. induction Hevs as [|ev rest Hev Hrest IH]; intros w Hover.
    + exists (isPaused (state w)). destruct w as [[] ts]. reflexivity.
    + destruct (handle_gameOver ev w Hover Hev) as [p1 Hstep].
      cbn [runEvents]. unfold step. rewrite Hstep.
      destruct (IH (mkWorld (withPaused p1 (state w)) (timeouts w)))
        as [p2 Hrun]; [exact Hover|].
      exists p2. exact Hrun.
  - intros Hpaused Henter. revert w Hpaused.
    induction Hevs as [|ev rest Hev Hrest IH]; intros w Hpaused;
      [reflexivity|].
    cbn [runEvents]. unfold step.
    rewrite (handle_paused ev w Hpaused Hev (Forall_inv Henter)).
    apply IH; [apply (Forall_inv_tail Henter)|assumption].
Qed.

Lemma flags_gate_witness :
  (exists paused,
      runEvents [CallMoveLeft; KeyDown "Enter" TypeO; KeyDown " " TypeS]
        (mkWorld
           (mkGameState restingO (TETROMINOES TypeI) (mkPosition 0 4)
              (TETROMINOES TypeT) 0 true false) [])
      = Some
          (mkWorld
             (withPaused paused
                (mkGameState restingO (TETROMINOES TypeI) (mkPosition 0 4)
                   (TETROMINOES TypeT) 0 true false)) [])) /\
  runEvents [CallMoveLeft; Tick TypeO; KeyDown " " TypeS]
    (mkWorld (withPaused true landingState) [])
  = Some (mkWorld (withPaused true landingState) []).
Proof.
  split.
  - apply (proj1 (flags_gate
                    [CallMoveLeft; KeyDown "Enter" TypeO; KeyDown " " TypeS]
                    (mkWorld
                       (mkGameState restingO (TETROMINOES TypeI)
                          (mkPosition 0 4) (TETROMINOES TypeT) 0 true false)
                       [])
                    ltac:(repeat constructor))).
    reflexivity.
  - apply (proj2 (flags_gate [CallMoveLeft; Tick TypeO; KeyDown " " TypeS]
                    (mkWorld (withPaused true landingState) [])
                    ltac:(repeat constructor))).
    + reflexivity.
    + repeat constructor.
Defined.

(** X16.  The checks of the drivers add nothing to the checks of the
    commands: in every session a tick of the interval does what a call
    of [moveDown] does, and an arrow key or the space bar does what a
    call of its command does, paused or not. *)
Theorem drivers_as_calls (w : World) (randomType : TetrominoType) :
  handle (Tick randomType) w = handle (CallMoveDown randomType) w /\
  handle (KeyDown "ArrowLeft" randomType) w = handle CallMoveLeft w /\
  handle (KeyDown "ArrowRight" randomType) w = handle CallMoveRight w /\
  handle (KeyDown "ArrowUp" randomType) w = handle CallRotate w /\
  handle (KeyDown "ArrowDown" randomType) w
  = handle (CallMoveDown randomType) w /\
  handle (KeyDown " " randomType) w = handle (CallHardDrop randomType) w.
Proof.
  destruct w as [gs ts]. cbn [handle state].
  unfold handleKeyPress, gameLoop, moveLeft, moveRight, moveDown, rotate,
    hardDrop.
  cbn [String.eqb Ascii.eqb Bool.eqb].
  destruct (isGameOver gs), (isPaused gs); repeat split; reflexivity.
Qed.

(** ** Moves that undo each other *)

Lemma moveLeft_accepted (gs : GameState) (ts : list Timeout) :
  isGameOver gs = false -> isPaused gs = false ->
  isValidMove (board gs) (currentPiece gs)
    (mkPosition (row (currentPosition gs)) (col (currentPosition gs) - 1))
  = Ok true ->
  handle CallMoveLeft (mkWorld gs ts)
  = (mkWorld
       (withPosition
          (mkPosition (row (currentPosition gs))
             (col (currentPosition gs) - 1)) gs) ts,
     Ok tt).
Proof.
  intros Hover Hpaused Hvalid. cbn [handle state]. unfold moveLeft.
  rewrite Hover, Hpaused. cbn [orb]. unfold bind, lift. now rewrite Hvalid.
Qed.

Lemma moveRight_accepted (gs : GameState) (ts : list Timeout) :
  isGameOver gs = false -> isPaused gs = false ->
  isValidMove (board gs) (currentPiece gs)
    (mkPosition (row (currentPosition gs)) (col (currentPosition gs) + 1))
  = Ok true ->
  handle CallMoveRight (mkWorld gs ts)
  = (mkWorld
       (withPosition
          (mkPosition (row (currentPosition gs))
             (col (currentPosition gs) + 1)) gs) ts,
     Ok tt).
Proof.
  intros Hover Hpaused Hvalid. cbn [handle state]. unfold moveRight.
  rewrite Hover, Hpaused. cbn [orb]. unfold bind, lift. now rewrite Hvalid.
Qed.

(** X17.  With both flags false and the piece on a valid position, a
    [moveLeft] that is accepted followed by [moveRight] brings the
    session back to where it was, and so does an accepted [moveRight]
    followed by [moveLeft]. *)
Theorem left_right_round_trip (w : World) :
  isGameOver (state w) = false -> isPaused (state w) = false ->
  isValidMove (board (state w)) (currentPiece (state w))
    (currentPosition (state w)) = Ok true ->
  (isValidMove (board (state w)) (currentPiece (state w))
     (mkPosition (row (currentPosition (state w)))
        (col (currentPosition (state w)) - 1)) = Ok true ->
   runEvents [CallMoveLeft; CallMoveRight] w = Some w) /\
  (isValidMove (board (state w)) (currentPiece (state w))
     (mkPosition (row (currentPosition (state w)))
        (col (currentPosition (state w)) + 1)) = Ok true ->
   runEvents [CallMoveRight; CallMoveLeft] w = Some w).
Proof.
  destruct w as [gs ts]. cbn [state]. intros Hover Hpaused Hhere.
  destruct gs as [b piece [r c] next sc over paused]. fields. cbn [row col].
  split; intros Hside; cbn [runEvents]; unfold step.
  - rewrite moveLeft_accepted by assumption.
    unfold withPosition. fields. cbn [row col].
    rewrite moveRight_accepted;
      fields; cbn [row col]; try assumption;
      replace (c - 1 + 1) with c by lia; [reflexivity|assumption].
  - rewrite moveRight_accepted by assumption.
    unfold withPosition. fields. cbn [row col].
    rewrite moveLeft_accepted;
      fields; cbn [row col]; try assumption;
      replace (c + 1 - 1) with c by lia; [reflexivity|assumption].
Qed.

Lemma left_right_round_trip_witness :
  runEvents [CallMoveLeft; CallMoveRight] (initialWorld TypeT TypeO)
  = Some (initialWorld TypeT TypeO) /\
  runEvents [CallMoveRight; CallMoveLeft] (initialWorld TypeT TypeO)
  = Some (initialWorld TypeT TypeO).
Proof.
  destruct (left_right_round_trip (initialWorld TypeT TypeO)
              eq_refl eq_refl eq_refl) as [Hleft Hright].
  split; [apply Hleft|apply Hright]; reflexivity.
Defined.

(** ** The line-clear window *)

Lemma moveDown_window (gs : GameState) (randomType : TetrominoType)
  (ts : list Timeout) (merged : Board) (cl : Cleared) :
  isGameOver gs = false -> isPaused gs = false ->
  isValidMove (board gs) (currentPiece gs)
    (mkPosition (row (currentPosition gs) + 1) (col (currentPosition gs)))
  = Ok false ->
  mergePieceWithBoard (board gs) (currentPiece gs) (currentPosition gs)
  = Ok merged ->
  clearLines merged = Ok cl -> clearedRows cl <> [] ->
  moveDown gs randomType (mkWorld gs ts)
  = (mkWorld (withBoard merged gs)
       (ts ++ [mkTimeout 800 gs (newBoard cl) (linesCleared cl)]),
     Ok tt).
Proof.
  intros Hover Hpaused Hvalid Hmerged Hcl Hrows.
  unfold moveDown. rewrite Hover, Hpaused. cbn [orb].
  unfold bind at 1. unfold lift at 1. rewrite Hvalid.
  unfold bind at 1. unfold lift at 1. rewrite Hmerged.
  unfold bind at 1. unfold lift at 1. rewrite Hcl.
  destruct (clearedRows cl) as [|i rest]; [contradiction|]. reflexivity.
Qed.

Lemma merged_valid (b m : Board) (piece q : Tetromino) (pos p : Position) :
  boardOk b -> mergePieceWithBoard b piece pos = Ok m ->
  isValidMove m q p = Ok true -> isValidMove b q p = Ok true.
Proof.
  intros Hb Hm Hv. apply (isValidMove_fits b q p (boardOk_height b Hb)).
  apply (merged_fits b m piece q pos p Hb Hm).
  now apply isValidMove_fits_weak.
Qed.

(** X18.  A second [moveDown] in the line-clear window, by the
    ArrowDown key or by a call, lands the piece a second time: the
    state stays as phase 1 left it and a second callback is scheduled
    with the same cleared board and line count.  When both have fired
    the score has grown by 100 per cleared line once, the current piece
    is the piece that was next at the landing, and the piece drawn by the
    first callback is gone, replaced by the draw of the second. *)
Theorem moveDown_in_window (gs : GameState) (r1 r2 : TetrominoType)
  (again : Event) (merged : Board) (cl : Cleared) :
  again = KeyDown "ArrowDown" r2 \/ again = CallMoveDown r2 ->
  isGameOver gs = false -> isPaused gs = false -> boardOk (board gs) ->
  isValidMove (board gs) (currentPiece gs)
    (mkPosition (row (currentPosition gs) + 1) (col (currentPosition gs)))
  = Ok false ->
  mergePieceWithBoard (board gs) (currentPiece gs) (currentPosition gs)
  = Ok merged ->
  clearLines merged = Ok cl -> clearedRows cl <> [] ->
  let windowState :=
    mkGameState merged (currentPiece gs) (currentPosition gs) (nextPiece gs)
      (score gs) false false in
  runEvents [CallMoveDown r1; again] (mkWorld gs [])
  = Some (mkWorld windowState
            [mkTimeout 800 gs (newBoard cl) (linesCleared cl);
             mkTimeout 800 windowState (newBoard cl) (linesCleared cl)]) /\
  forall d1 d2,
  exists spawnValid,
    isValidMove (newBoard cl) (nextPiece gs) (mkPosition 0 4) = Ok spawnValid /\
    runEvents [CallMoveDown r1; again; TimeoutFires d1; TimeoutFires d2]
      (mkWorld gs [])
    = Some (mkWorld
              (mkGameState (newBoard cl) (nextPiece gs) (mkPosition 0 4)
                 (TETROMINOES d2) (score gs + linesCleared cl * 100)
                 (negb spawnValid) false) []).
Proof.
  intros Hagain Hover Hpaused Hb Hvalid Hmerged Hcl Hrows windowState.
  assert (Hwindow : withBoard merged gs = windowState).
  { unfold withBoard, windowState. now rewrite Hover, Hpaused. }
  destruct (mergePieceWithBoard_boardOk (board gs) (currentPiece gs)
              (currentPosition gs) Hb) as (m0 & Hm0 & Hmb).
  assert (m0 = merged) by congruence. subst m0.
  assert (Hvalid2 : isValidMove merged (currentPiece gs)
                      (mkPosition (row (currentPosition gs) + 1)
                         (col (currentPosition gs))) = Ok false).
  { destruct (isValidMove_total merged (currentPiece gs)
                (mkPosition (row (currentPosition gs) + 1)
                   (col (currentPosition gs))) (boardOk_height _ Hmb))
      as [[|] Hv]; [|assumption].
    rewrite (merged_valid (board gs) merged (currentPiece gs) (currentPiece gs)
               (currentPosition gs) _ Hb Hmerged Hv) in Hvalid.
    discriminate. }
  assert (Hfirst :
    handle (CallMoveDown r1) (mkWorld gs [])
    = (mkWorld windowState [mkTimeout 800 gs (newBoard cl) (linesCleared cl)],
       Ok tt)).
  { cbn [handle state].
    rewrite (moveDown_window gs r1 [] merged cl) by assumption.
    now rewrite Hwindow. }
  assert (Hsecond :
    handle again
      (mkWorld windowState [mkTimeout 800 gs (newBoard cl) (linesCleared cl)])
    = (mkWorld windowState
         [mkTimeout 800 gs (newBoard cl) (linesCleared cl);
          mkTimeout 800 windowState (newBoard cl) (linesCleared cl)],
       Ok tt)).
  { assert (Hcall :
      handle again
        (mkWorld windowState
           [mkTimeout 800 gs (newBoard cl) (linesCleared cl)])
      = moveDown windowState r2
          (mkWorld windowState
             [mkTimeout 800 gs (newBoard cl) (linesCleared cl)]))
      by (destruct Hagain as [-> | ->]; reflexivity).
    rewrite Hcall.
    rewrite (moveDown_window windowState r2 _ merged cl);
      try reflexivity; try assumption.
    apply (merged_again (board gs)); assumption. }
  assert (Hclen : (Z.to_nat BOARD_HEIGHT <= length (newBoard cl))%nat)
    by (rewrite (clearLines_height merged cl Hcl); lia).
  split.
  - cbn [runEvents]. unfold step. rewrite Hfirst, Hsecond. reflexivity.
  - intros d1 d2.
    destruct (isValidMove_total (newBoard cl) (nextPiece gs) (mkPosition 0 4)
                Hclen) as [spawnValid Hspawn].
    exists spawnValid. split; [assumption|].
    cbn [runEvents]. unfold step. rewrite Hfirst, Hsecond.
    cbn [handle timeouts state]. unfold phaseTwo at 1.
    cbn [capturedState capturedBoard capturedLines].
    unfold bind, lift. change spawnPosition with (mkPosition 0 4).
    rewrite Hspawn. unfold setGameState. cbn [state timeouts].
    unfold phaseTwo. cbn [capturedState capturedBoard capturedLines].
    cbn [windowState nextPiece score]. unfold bind, lift.
    change spawnPosition with (mkPosition 0 4). rewrite Hspawn.
    reflexivity.
Qed.

Lemma moveDown_in_window_witness :
  let windowState :=
    mkGameState landingMerged (currentPiece landingState)
      (currentPosition landingState) (nextPiece landingState)
      (score landingState) false false in
  runEvents [CallMoveDown TypeL; KeyDown "ArrowDown" TypeJ]
    (mkWorld landingState [])
  = Some (mkWorld windowState
            [mkTimeout 800 landingState (newBoard landingCleared)
               (linesCleared landingCleared);
             mkTimeout 800 windowState (newBoard landingCleared)
               (linesCleared landingCleared)]) /\
  forall d1 d2,
  exists spawnValid,
    isValidMove (newBoard landingCleared) (nextPiece landingState)
      (mkPosition 0 4) = Ok spawnValid /\
    runEvents [CallMoveDown TypeL; KeyDown "ArrowDown" TypeJ;
               TimeoutFires d1; TimeoutFires d2]
      (mkWorld landingState [])
    = Some (mkWorld
              (mkGameState (newBoard landingCleared) (nextPiece landingState)
                 (mkPosition 0 4) (TETROMINOES d2)
                 (score landingState + linesCleared landingCleared * 100)
                 (negb spawnValid) false) []).
Proof.
  apply (moveDown_in_window landingState TypeL TypeJ
           (KeyDown "ArrowDown" TypeJ) landingMerged landingCleared);
    try reflexivity.
  - now left.
  - split; [reflexivity|]. repeat constructor.
  - discriminate.
Defined.

(** ** What the view derives *)

Lemma reduceRows_fullRowsFrom (rows : Board) :
  forall acc index, reduceRows acc index rows = acc ++ fullRowsFrom index rows.
Proof.
  induction rows as [|cells rest IH]; intros acc index; simpl.
  - now rewrite app_nil_r.
  - rewrite IH. destruct (isFull cells); [|reflexivity].
    now rewrite <- app_assoc.
Qed.

Lemma fullRowsFrom_existsb (rows : Board) :
  existsb isFull rows = false -> forall index, fullRowsFrom index rows = [].
Proof.
  induction rows as [|cells rest IH]; intros Hnone index; simpl in *;
    [reflexivity|].
  apply orb_false_iff in Hnone. destruct Hnone as [-> Hrest]. now apply IH.
Qed.

(** X19.  The rows [App] marks as clearing are the rows [clearLines]
    reports for the same board, in the same order; and on the board
    [clearLines] returns for a board of BOARD_HEIGHT rows of BOARD_WIDTH
    cells [App] marks none. *)
Theorem rowsToAnimate_clearedRows (b : Board) (cl : Cleared) :
  clearLines b = Ok cl ->
  rowsToAnimate b = clearedRows cl /\
  (boardOk b -> rowsToAnimate (newBoard cl) = []).
Proof.
  intros Hcl.
  assert (Hrows : forall rows, rowsToAnimate rows = fullRowsFrom 0 rows).
  { intros rows. unfold rowsToAnimate.
    destruct (existsb isFull rows) eqn:Hex.
    - apply reduceRows_fullRowsFrom.
    - symmetry. now apply fullRowsFrom_existsb. }
  split.
  - rewrite Hrows. unfold clearLines in Hcl.
    destruct (_ <? 0) in Hcl; [discriminate|]. now injection Hcl as <-.
  - intros Hb. rewrite Hrows.
    pose proof (clearLines_boardOk b cl Hb Hcl) as [Hlen _].
    assert (Hagain : clearLines (newBoard cl)
                     = Ok (mkCleared [] (newBoard cl) 0)).
    { apply clearLines_nothing; [assumption|].
      apply fullRowsFrom_none_full. intros cells Hin.
      rewrite (clearLines_Ok b (proj1 Hb)) in Hcl. injection Hcl as <-.
      cbn [newBoard] in Hin. apply in_app_or in Hin.
      destruct Hin as [Hin|Hin].
      - apply repeat_spec in Hin. subst cells. reflexivity.
      - apply filter_In in Hin. destruct Hin as [_ Hnot].
        now apply negb_true_iff in Hnot. }
    rewrite (clearLines_Ok (newBoard cl) Hlen) in Hagain.
    now injection Hagain as ->.
Qed.

Lemma rowsToAnimate_clearedRows_witness :
  rowsToAnimate rowsThreeAndSeven = [3; 7] /\
  rowsToAnimate createEmptyBoard = [].
Proof.
  destruct (rowsToAnimate_clearedRows rowsThreeAndSeven
              (mkCleared [3; 7] createEmptyBoard 2) eq_refl) as [Hrows Hnone].
  split; [exact Hrows|]. apply Hnone. exact boardOk_rowsThreeAndSeven.
Defined.

Lemma someCell_true (pos : Position) (r c rowIndex : Z) (shapeRow : list Z) :
  forall colIndex,
    someCell pos r c rowIndex colIndex shapeRow = true <->
    exists j cell, nth_error shapeRow j = Some cell /\ cell <> 0 /\
                   r = row pos + rowIndex /\
                   c = col pos + (colIndex + Z.of_nat j).
Proof.
  induction shapeRow as [|isSet rest IH]; intros colIndex; simpl.
  - split; [discriminate|]. intros ([|j] & cell & H & _); discriminate.
  - rewrite orb_true_iff, IH, !andb_true_iff, truthy_true, !Z.eqb_eq. split.
    + intros [[[Hne Hr] Hc]|(j & cell & Hj & Hne & Hr & Hc)].
      * exists 0%nat, isSet. repeat split; try assumption. lia.
      * exists (S j), cell. repeat split; try assumption. lia.
    + intros ([|j] & cell & Hj & Hne & Hr & Hc); simpl in Hj.
      * injection Hj as <-. left. repeat split; try assumption. lia.
      * right. exists j, cell. repeat split; try assumption. lia.
Qed.

Lemma someRow_true (pos : Position) (r c : Z) (rows : list (list Z)) :
  forall rowIndex,
    someRow pos r c rowIndex rows = true <->
    exists i j, filledIn rows i j /\
                r = row pos + (rowIndex + Z.of_nat i) /\
                c = col pos + Z.of_nat j.
Proof.
  induction rows as [|shapeRow rest IH]; intros rowIndex; simpl.
  - split; [discriminate|].
    intros ([|i] & j & (cells & cell & H & _) & _); discriminate.
  - rewrite orb_true_iff, IH, someCell_true. split.
    + intros [(j & cell & Hj & Hne & Hr & Hc)
             |(i & j & (cells & cell & Hi & Hj & Hne) & Hr & Hc)].
      * exists 0%nat, j. split; [now exists shapeRow, cell|]. split; lia.
      * exists (S i), j. split; [now exists cells, cell|]. split; lia.
    + intros ([|i] & j & (cells & cell & Hi & Hj & Hne) & Hr & Hc);
        simpl in Hi.
      * injection Hi as <-. left. exists j, cell.
        repeat split; try assumption; lia.
      * right. exists i, j. split; [now exists cells, cell|]. split; lia.
Qed.

(** X20.  [renderCell] draws a board cell as part of the falling piece
    exactly when a filled cell of the piece lies on it.  In a reachable
    session with [isGameOver] false and no line clear pending such a cell
    is never a filled cell of the board, so no settled block is painted
    over. *)
Theorem isCurrent_cells (w : World) (R C : nat) :
  (isCurrent (currentPiece (state w)) (currentPosition (state w))
     (Z.of_nat R) (Z.of_nat C) = true <->
   covers (currentPiece (state w)) (currentPosition (state w)) R C) /\
  (reachable w -> isGameOver (state w) = false -> timeouts w = [] ->
   isCurrent (currentPiece (state w)) (currentPosition (state w))
     (Z.of_nat R) (Z.of_nat C) = true ->
   ~ filledIn (board (state w)) R C).
Proof.
  assert (Hiff : isCurrent (currentPiece (state w)) (currentPosition (state w))
                   (Z.of_nat R) (Z.of_nat C) = true <->
                 covers (currentPiece (state w)) (currentPosition (state w)) R C).
  { unfold isCurrent, covers. rewrite someRow_true.
    split; intros (i & j & Hf & Hr & Hc); exists i, j;
      (split; [assumption|split; lia]). }
  split; [exact Hiff|].
  intros Hreach Hover Hts Hcur. apply Hiff in Hcur.
  destruct Hcur as (r & c & Hf & HR & HC).
  pose proof (ok_overlap w (reachable_ok w Hreach) Hover Hts r c Hf) as Hno.
  rewrite <- HR, <- HC, !Nat2Z.id in Hno. exact Hno.
Qed.

Lemma isCurrent_cells_witness :
  (isCurrent (TETROMINOES TypeO) (mkPosition 0 4) (Z.of_nat 1) (Z.of_nat 5)
   = true <->
   covers (TETROMINOES TypeO) (mkPosition 0 4) 1 5) /\
  ~ filledIn createEmptyBoard 1 5.
Proof.
  destruct (isCurrent_cells (initialWorld TypeO TypeI) 1 5) as [Hiff Hfree].
  split; [exact Hiff|]. apply Hfree; try reflexivity.
  exists TypeO, TypeI, []. reflexivity.
Defined.

(** ** Where the rows go *)

Lemma filter_length_le {A : Type} (f : A -> bool) (l : list A) :
  (length (filter f l) <= length l)%nat.
Proof.
  induction l as [|x rest IH]; simpl; [lia|]. destruct (f x); simpl; lia.
Qed.

(** X21.  [clearLines] lets the rows fall: on a board of BOARD_HEIGHT
    rows of BOARD_WIDTH cells a row that is not full and stands at index
    [i] is found in the result at index [i] plus the number of full rows
    that were below it. *)
Theorem clearLines_rows_fall (b : Board) (cl : Cleared) (i : nat)
  (cells : list Z) :
  boardOk b -> clearLines b = Ok cl ->
  nth_error b i = Some cells -> isFull cells = false ->
  nth_error (newBoard cl) (i + length (filter isFull (skipn (S i) b)))
  = Some cells.
Proof.
  intros Hb Hcl Hi Hnot. rewrite (clearLines_Ok b (proj1 Hb)) in Hcl.
  injection Hcl as <-. cbn [newBoard].
  destruct (nth_error_split b i Hi) as (above & below & Hsplit & Hlen).
  assert (Hbelow : skipn (S i) b = below).
  { rewrite Hsplit. replace (S i) with (length (above ++ [cells]))
      by (rewrite length_app; simpl; lia).
    change (above ++ cells :: below) with (above ++ [cells] ++ below).
    rewrite app_assoc. now rewrite skipn_app, Nat.sub_diag, skipn_all. }
  rewrite Hbelow. rewrite Hsplit. rewrite !filter_app. simpl.
  rewrite Hnot. simpl. rewrite !length_app.
  pose proof (filter_split_length isFull above) as Habove.
  rewrite nth_error_app2; rewrite repeat_length; [|lia].
  rewrite nth_error_app2; [|lia].
  replace (i + length (filter isFull below)
           - (length (filter isFull above) + length (filter isFull below))
           - length (filter (fun cells0 => negb (isFull cells0)) above))%nat
    with 0%nat by lia.
  reflexivity.
Qed.

Lemma clearLines_rows_fall_witness :
  nth_error (newBoard landingCleared)
    (18 + length (filter isFull (skipn 19 landingMerged)))
  = Some [0; 0; 0; 0; 0; 0; 0; 0; 1; 1].
Proof.
  apply (clearLines_rows_fall landingMerged landingCleared 18
           [0; 0; 0; 0; 0; 0; 0; 0; 1; 1]); try reflexivity.
  split; [reflexivity|]. repeat constructor.
Defined.

Lemma moveDown_score (gs : GameState) (randomType : TetrominoType)
  (ts : list Timeout) :
  boardOk (board gs) ->
  score (state (fst (moveDown gs randomType (mkWorld gs ts)))) = score gs.
Proof.
  intros Hb. unfold moveDown.
  destruct (isGameOver gs || isPaused gs); [reflexivity|].
  unfold bind at 1. unfold lift at 1.
  destruct (isValidMove (board gs) (currentPiece gs)
              (mkPosition (row (currentPosition gs) + 1)
                 (col (currentPosition gs)))) as [[|]|e]; try reflexivity.
  destruct (mergePieceWithBoard_boardOk (board gs) (currentPiece gs)
              (currentPosition gs) Hb) as (merged & Hmerged & Hmb).
  unfold bind at 1. unfold lift at 1. rewrite Hmerged.
  unfold bind at 1. unfold lift at 1.
  rewrite (clearLines_Ok merged (proj1 Hmb)).
  cbn [clearedRows newBoard linesCleared].
  destruct (0 <? length (fullRowsFrom 0 merged))%nat eqn:Hrows;
    [reflexivity|].
  unfold bind, lift.
  destruct (isValidMove _ (nextPiece gs) spawnPosition) as [valid|e];
    [|reflexivity].
  unfold setGameState, withSettled. fields. cbn [fst state score].
  apply Nat.ltb_ge in Hrows. rewrite fullRowsFrom_length in Hrows.
  replace (length (filter isFull merged)) with 0%nat by lia. lia.
Qed.

Lemma moves_score (gs : GameState) (ts : list Timeout) :
  score (state (fst (moveLeft gs (mkWorld gs ts)))) = score gs /\
  score (state (fst (moveRight gs (mkWorld gs ts)))) = score gs /\
  score (state (fst (rotate gs (mkWorld gs ts)))) = score gs.
Proof.
  unfold moveLeft, moveRight, rotate.
  destruct (isGameOver gs || isPaused gs); [now repeat split|].
  unfold bind, lift.
  repeat split;
    repeat match goal with
           | |- context [match ?o with Ok _ => _ | Stop _ => _ end] =>
               destruct o
           | |- context [if ?v then _ else _] => destruct v
           end; reflexivity.
Qed.

(** X22.  In a reachable session the score changes only when a
    scheduled callback fires or the game is reset: no key, tick or call
    of a command changes it, a landing included. *)
Theorem score_changes_late (w : World) (ev : Event) :
  reachable w -> isResetOrTimeout ev = false ->
  score (state (fst (handle ev w))) = score (state w).
Proof.
  intros Hreach Hev. pose proof (reachable_ok w Hreach) as Hok.
  assert (Hdrop : forall randomType,
             handle (CallHardDrop randomType) w
             = handle (CallMoveDown randomType) w).
  { intros randomType. apply handle_hardDrop.
    - apply boardOk_height, Hok.
    - destruct (ok_piece w Hok) as (N & _ & _ & Hfilled). exact Hfilled. }
  pose proof (ok_board w Hok) as Hb.
  destruct w as [gs ts]. fields.
  destruct (moves_score gs ts) as (Hleft & Hright & Hrotate).
  destruct ev as [key r|r| | |r| |r|first second|r]; try discriminate.
  - cbn [handle state]. unfold handleKeyPress.
    destruct (String.eqb key "Enter"); [reflexivity|].
    destruct (isPaused gs); [reflexivity|].
    destruct (String.eqb key "ArrowLeft"); [assumption|].
    destruct (String.eqb key "ArrowRight"); [assumption|].
    destruct (String.eqb key "ArrowDown"); [now apply moveDown_score|].
    destruct (String.eqb key "ArrowUp"); [assumption|].
    destruct (String.eqb key " "); [|reflexivity].
    change (hardDrop (dropFuel gs) gs r (mkWorld gs ts))
      with (handle (CallHardDrop r) (mkWorld gs ts)).
    rewrite Hdrop. now apply moveDown_score.
  - cbn [handle state]. unfold gameLoop.
    destruct (negb (isGameOver gs) && negb (isPaused gs));
      [now apply moveDown_score|reflexivity].
  - assumption.
  - assumption.
  - now apply moveDown_score.
  - assumption.
  - rewrite Hdrop. now apply moveDown_score.
Qed.

Lemma score_changes_late_witness :
  score (state (fst (handle (CallMoveDown TypeL)
                       (mkWorld
                          (mkGameState
                             (update 19 [1; 1; 1; 1; 1; 1; 1; 1; 0; 0]
                                createEmptyBoard)
                             (TETROMINOES TypeO) (mkPosition 18 8)
                             (TETROMINOES TypeT) 0 false false) []))))
  = 0.
Proof.
  apply (score_changes_late
           (mkWorld
              (mkGameState
                 (update 19 [1; 1; 1; 1; 1; 1; 1; 1; 0; 0] createEmptyBoard)
                 (TETROMINOES TypeO) (mkPosition 18 8) (TETROMINOES TypeT) 0
                 false false) [])
           (CallMoveDown TypeL)); [|reflexivity].
  exists TypeI, TypeI,
    (repeat CallMoveLeft 4 ++ repeat (CallMoveDown TypeO) 19
     ++ repeat (CallMoveDown TypeT) 19
     ++ repeat CallMoveRight 4 ++ repeat (CallMoveDown TypeO) 18).
  vm_compute. reflexivity.
Defined.
